(** * The /transcribe handler of python_backend/main.py

    A shallow embedding of [transcribe_audio] and of the callbacks it
    registers on the live-transcription connection, followed by the
    properties of the handler: transcript accumulation, error capture,
    chunked streaming, the final evaluation, the error paths and the
    closing of the connection.

    The Deepgram SDK, the uploaded file and the process environment are
    the handler's environment.  They are described by a [scenario]: what
    the environment variable holds, the uploaded bytes, which SDK call
    raises, what [start] answers, when the connection is lost, and which
    events the SDK delivers to the callbacks while the handler is inside
    [start], [send], [finish] and the final [asyncio.sleep]. *)

From Stdlib Require Import Ascii String.
From Stdlib.Strings Require Byte.
From stdpp Require Import base option list strings gmap.

Local Open Scope string_scope.
Local Open Scope list_scope.

(** ** Python values and strings *)

Module Py.

(** The values an error payload can hold under a key; [py_str] is
    Python's [str(...)]. *)
Inductive pyval :=
| PyStr (s : string)
| PyNone.

Definition py_str (v : pyval) : string :=
  match v with
  | PyStr s => s
  | PyNone => "None"
  end.

(** Truth value of a string: [bool(s)], false exactly on the empty one. *)
Definition truthy (s : string) : bool :=
  match s with
  | EmptyString => false
  | String _ _ => true
  end.

(** [x or y] for [x] holding [None] or a string. *)
Definition or_else (o : option string) (y : string) : string :=
  match o with
  | None => y
  | Some s => if truthy s then s else y
  end.

(** [c.lower()] on one character.  Only the ASCII capitals matter for the
    search of the word "auth": no other character lowers to one of its
    letters, and bytes above 127 are left as they are. *)
Definition ascii_lower (c : ascii) : ascii :=
  let n := nat_of_ascii c in
  if ((65 <=? n) && (n <=? 90))%nat then ascii_of_nat (n + 32) else c.

Fixpoint lower (s : string) : string :=
  match s with
  | EmptyString => EmptyString
  | String c s' => String (ascii_lower c) (lower s')
  end.

(** [needle in hay]. *)
Fixpoint str_in (needle hay : string) : bool :=
  String.prefix needle hay
  || match hay with
     | EmptyString => false
     | String _ hay' => str_in needle hay'
     end.

End Py.
Import Py.

(** ** Events delivered by the SDK *)

Record alternative := Alternative { transcript : string }.
Record channel_t := Channel { alternatives : list alternative }.
Record live_result := LiveResult { channel : channel_t }.

(** One event per member of [LiveTranscriptionEvents] that the handler
    subscribes to; the payload is kept where a callback reads it. *)
Inductive event :=
| Open
| Transcript (result : live_result)
| Metadata
| SpeechStarted
| UtteranceEnd
| Close
| Error (error : gmap string pyval)
| Unhandled.

(** ** Exceptions, responses and the handler's state *)

(** The exceptions the handler tells apart: the SDK's [DeepgramError],
    FastAPI's [HTTPException], and any other [Exception]; [msg] is the text
    [str(e)].  What is not an [Exception] (a cancellation of the task) is
    caught by none of the clauses and is not part of this development. *)
Inductive exn :=
| DeepgramError (msg : string)
| HTTPException (status_code : Z) (detail : string)
| Exception (msg : string).

(** The JSON body: ["transcription"] always, ["error"] on the two handled
    failures. *)
Record body := Body { transcription : string; error_field : option string }.

(** The connection object returned by [deepgram.listen.live.v("1")]. *)
Record live_client := LiveClient { is_connected : bool }.

(** The calls made on the SDK, in order. *)
Inductive call :=
| CallClient (api_key : string)
| CallLive
| CallStart
| CallSend (data : list Byte.byte)
| CallFinish.

(** The variables of [transcribe_audio] that the callbacks capture
    ([nonlocal]): they are all a callback can write. *)
Record closure := Closure {
  transcription_result : string;
  deepgram_error_message : option string
}.

Record world := World {
  nonlocals : closure;
  dg_connection : option live_client;
  file_rest : list Byte.byte;
  calls : list call
}.

Definition set_nonlocals (v : closure) (w : world) : world :=
  World v (dg_connection w) (file_rest w) (calls w).
Definition set_dg_connection (c : option live_client) (w : world) : world :=
  World (nonlocals w) c (file_rest w) (calls w).
Definition set_file_rest (r : list Byte.byte) (w : world) : world :=
  World (nonlocals w) (dg_connection w) r (calls w).
Definition log_call (c : call) (w : world) : world :=
  World (nonlocals w) (dg_connection w) (file_rest w) (calls w ++ [c]).

(** ** The callbacks *)

(** [on_message]: lines 51-56.  [alternatives[0]] raises [IndexError] on an
    empty list, inside the SDK's thread and before any assignment: the
    variables are then as they were. *)
Definition on_message (result : live_result) (v : closure) : closure :=
  match alternatives (channel result) !! 0%nat with
  | None => v
  | Some alt =>
      let sentence := transcript alt in
      if (0 <? String.length sentence)%nat then
        Closure
          (transcription_result v +:+
             (if truthy (transcription_result v) then " " +:+ sentence else sentence))
          (deepgram_error_message v)
      else v
  end.

(** [on_error]: lines 74-78. *)
Definition error_text (error : gmap string pyval) : string :=
  py_str (default (PyStr "Unknown Deepgram error") (error !! "message")).

Definition on_error (error : gmap string pyval) (v : closure) : closure :=
  let error_message := error_text error in
  Closure (transcription_result v) (Some error_message).

(** Lines 84-91: the callback registered for each event; the other six
    only log. *)
Definition on_event (e : event) (v : closure) : closure :=
  match e with
  | Transcript result => on_message result v
  | Error error => on_error error v
  | Open | Metadata | SpeechStarted | UtteranceEnd | Close | Unhandled => v
  end.

(** The SDK delivers events one after the other. *)
Definition deliver (evs : list event) (v : closure) : closure :=
  foldl (fun v e => on_event e v) v evs.

Definition deliver_to (evs : list event) (w : world) : world :=
  set_nonlocals (deliver evs (nonlocals w)) w.

(** ** The handler's monad: state and exceptions

    A computation runs on a [world] and returns a value, raises, or gives
    up when the fuel of the [while True] loop is spent ([OutOfFuel], which
    [transcribe_audio_terminates] shows never to be the handler's
    outcome). *)

Inductive outcome (A : Type) :=
| Returned (a : A)
| Raised (e : exn)
| OutOfFuel.
Arguments Returned {A} a.
Arguments Raised {A} e.
Arguments OutOfFuel {A}.

Definition M (A : Type) : Type := world -> outcome A * world.

#[global] Instance M_ret : MRet M := fun A a w => (Returned a, w).

#[global] Instance M_fmap : FMap M := fun A B f m w =>
  match m w with
  | (Returned a, w') => (Returned (f a), w')
  | (Raised e, w') => (Raised e, w')
  | (OutOfFuel, w') => (OutOfFuel, w')
  end.

#[global] Instance M_bind : MBind M := fun A B f m w =>
  match m w with
  | (Returned a, w') => f a w'
  | (Raised e, w') => (Raised e, w')
  | (OutOfFuel, w') => (OutOfFuel, w')
  end.

Definition raise {A} (e : exn) : M A := fun w => (Raised e, w).
Definition get : M world := fun w => (Returned w, w).
Definition modify (f : world -> world) : M unit := fun w => (Returned tt, f w).

(** [try: body except e: handler e]; what [handler] raises is not caught
    again. *)
Definition try_except {A} (body : M A) (handler : exn -> M A) : M A := fun w =>
  match body w with
  | (Raised e, w') => handler e w'
  | r => r
  end.

(** [try: body finally: final]; an exception of [final] replaces the
    outcome of [body]. *)
Definition try_finally {A} (body : M A) (final : M unit) : M A := fun w =>
  match body w with
  | (OutOfFuel, w') => (OutOfFuel, w')
  | (r, w') =>
      match final w' with
      | (Returned _, w'') => (r, w'')
      | (Raised e, w'') => (Raised e, w'')
      | (OutOfFuel, w'') => (OutOfFuel, w'')
      end
  end.

(** ** The environment of one request *)

Inductive start_result :=
| StartReturns (ok : bool)
| StartRaises (e : exn).

Record scenario := Scenario {
  (** [os.getenv("DEEPGRAM_API_KEY")] without its default: [None] when the
      variable is not set *)
  env_key : option string;
  (** the bytes of the uploaded file *)
  upload : list Byte.byte;
  (** an exception of lines 37-44, before [dg_connection] is assigned *)
  client_raises : option exn;
  (** events delivered while the handler awaits [start], and its result *)
  start_events : list event;
  start_outcome : start_result;
  (** events delivered while the k-th [send] (from 0) is processed *)
  send_events : list (list event);
  (** the [send] that raises, if one does *)
  send_raises : option (nat * exn);
  (** events delivered during [finish] and during [asyncio.sleep(2)] *)
  finish_events : list event;
  settle_events : list event;
  (** the [send] during which the connection goes down on the SDK's side
      (the socket is closed or lost), if it does: from then on
      [is_connected()] answers false *)
  connection_lost_at : option nat
}.

Definition sends (cs : list call) : list (list Byte.byte) :=
  omap (fun c => match c with CallSend data => Some data | _ => None end) cs.

Definition is_finish (c : call) : bool :=
  match c with CallFinish => true | _ => false end.

Definition finish_count (cs : list call) : nat :=
  length (filter (fun c => is_finish c) cs).

(** ** The handler *)

Definition placeholder_key : string := "fb7768611a8ea2a7c76d745ccc056966e5a1a93b".

Definition chunk_size : nat := 4096.

Definition init_world (sc : scenario) : world :=
  World (Closure "" None) None (upload sc) [].

Section Handler.

Variable sc : scenario.

(** Line 20: the module-level constant. *)
Definition DEEPGRAM_API_KEY : string := default placeholder_key (env_key sc).

(** *** The SDK and the file, as the scenario plays them *)

(** Lines 37-44: [DeepgramClientOptions], [DeepgramClient] and
    [deepgram.listen.live.v("1")], whose result is assigned to
    [dg_connection]. *)
Definition new_live_connection (api_key : string) : M unit := fun w =>
  let w1 := log_call (CallClient api_key) w in
  match client_raises sc with
  | Some e => (Raised e, w1)
  | None =>
      (Returned tt, set_dg_connection (Some (LiveClient false)) (log_call CallLive w1))
  end.

(** [dg_connection.start(options)]: the connection is up exactly when
    [start] answers true. *)
Definition dg_start : M bool := fun w =>
  let w1 := deliver_to (start_events sc) (log_call CallStart w) in
  match start_outcome sc with
  | StartRaises e => (Raised e, w1)
  | StartReturns ok => (Returned ok, set_dg_connection (Some (LiveClient ok)) w1)
  end.

Definition send_exception (k : nat) : option exn :=
  match send_raises sc with
  | Some (k', e) => if (k =? k')%nat then Some e else None
  | None => None
  end.

(** The connection as the SDK reports it once the [send] of index [k] is
    made: down if it is lost during that [send], as before otherwise. *)
Definition connection_after_send (k : nat) (w : world) : world :=
  match connection_lost_at sc with
  | Some j =>
      if (j =? k)%nat then set_dg_connection (Some (LiveClient false)) w else w
  | None => w
  end.

(** [dg_connection.send(data)]; [k] counts the sends made before. *)
Definition dg_send (data : list Byte.byte) : M unit := fun w =>
  let k := length (sends (calls w)) in
  let w1 := connection_after_send k (log_call (CallSend data) w) in
  match send_exception k with
  | Some e => (Raised e, w1)
  | None => (Returned tt, deliver_to (send_events sc !!! k) w1)
  end.

(** [dg_connection.finish()]: closes the connection and returns.  A
    [finish] that raises is not part of this development. *)
Definition dg_finish : M unit := fun w =>
  (Returned tt,
   set_dg_connection (Some (LiveClient false))
     (deliver_to (finish_events sc) (log_call CallFinish w))).

(** [asyncio.sleep(2)]: the events that arrive in time. *)
Definition sleep : M unit := modify (deliver_to (settle_events sc)).

(** [file.read(n)] *)
Definition file_read (n : nat) : M (list Byte.byte) := fun w =>
  (Returned (take n (file_rest w)), set_file_rest (drop n (file_rest w)) w).

(** *** The code of [transcribe_audio] *)

(** [dg_connection and dg_connection.is_connected()] *)
Definition connection_is_up (w : world) : bool :=
  match dg_connection w with
  | Some c => is_connected c
  | None => false
  end.

(** Lines 143-144, 156-157 and 161-163. *)
Definition finish_if_connected : M unit :=
  w ← get;
  if connection_is_up w then dg_finish else mret tt.

(** Lines 116-120; [fuel] bounds the number of iterations. *)
Fixpoint stream_loop (fuel : nat) : M unit :=
  match fuel with
  | O => fun w => (OutOfFuel, w)
  | S fuel' =>
      data ← file_read chunk_size;
      match data return M unit with
      | nil => mret tt
      | cons _ _ => dg_send data;; stream_loop fuel'
      end
  end.

(** Lines 131-139: the three [return]s. *)
Definition evaluate (v : closure) : body :=
  let otherwise :=
    if negb (truthy (transcription_result v)) then
      Body "" (Some "No speech detected or empty audio.")
    else
      Body (transcription_result v) None in
  match deepgram_error_message v with
  | Some m =>
      if truthy m then Body "" (Some ("Deepgram error: " +:+ m)) else otherwise
  | None => otherwise
  end.

(** Lines 36-139, the body of the [try]. *)
Definition try_body : M body :=
  new_live_connection DEEPGRAM_API_KEY;;
  started ← dg_start;
  if negb started then
    v ← nonlocals <$> get;
    raise (HTTPException 500
             (or_else (deepgram_error_message v)
                      "Failed to connect to Deepgram (initiation phase)."))
  else
    w ← get;
    stream_loop (S (length (file_rest w)));;
    dg_finish;;
    sleep;;
    v ← nonlocals <$> get;
    mret (evaluate v).

(** Lines 141-158, the three [except] clauses. *)
Definition except_clauses (e : exn) : M body :=
  match e with
  | DeepgramError msg =>
      finish_if_connected;;
      let error_detail := "Deepgram API error: " +:+ msg in
      let error_detail :=
        if str_in "auth" (lower msg)
        then "Deepgram authentication error. Check API Key."
        else error_detail in
      raise (HTTPException 500 error_detail)
  | HTTPException _ _ => raise e
  | Exception msg =>
      finish_if_connected;;
      raise (HTTPException 500 ("An unexpected server error occurred: " +:+ msg))
  end.

(** Lines 25-163. *)
Definition transcribe_audio : M body :=
  if negb (truthy DEEPGRAM_API_KEY) || String.eqb DEEPGRAM_API_KEY placeholder_key then
    raise (HTTPException 500 "Deepgram API key not configured.")
  else
    try_finally (try_except try_body except_clauses) finish_if_connected.

End Handler.

(** One request, from the state in which the handler is entered. *)
Definition handle (sc : scenario) : outcome body * world :=
  transcribe_audio sc (init_world sc).

(** ** Vocabulary of the statements *)

(** First and last character of a string. *)
Definition first_char (s : string) : option ascii :=
  match s with
  | EmptyString => None
  | String c _ => Some c
  end.

Fixpoint last_char (s : string) : option ascii :=
  match s with
  | EmptyString => None
  | String c EmptyString => Some c
  | String _ s' => last_char s'
  end.

(** The fragment of an event: the text [on_message] reads from a transcript
    event, when it is not empty. *)
Definition fragment (e : event) : option string :=
  match e with
  | Transcript result =>
      match alternatives (channel result) with
      | alt :: _ => if truthy (transcript alt) then Some (transcript alt) else None
      | [] => None
      end
  | _ => None
  end.

(** The non-empty fragments of a sequence of events, in arrival order. *)
Definition fragments (evs : list event) : list string := omap fragment evs.

(** The message [on_error] stores for an event, for the error events. *)
Definition error_message_of (e : event) : option string :=
  match e with
  | Error error => Some (error_text error)
  | _ => None
  end.

(** The messages of the error events of a sequence, in arrival order. *)
Definition error_messages (evs : list event) : list string := omap error_message_of evs.

(** The credential passes the check of line 27. *)
Definition configured (sc : scenario) : Prop :=
  truthy (DEEPGRAM_API_KEY sc) = true ∧ DEEPGRAM_API_KEY sc ≠ placeholder_key.

(** The session was started: the credential is accepted, lines 37-44 do not
    raise and [start] answers true. *)
Definition session_started (sc : scenario) : bool :=
  truthy (DEEPGRAM_API_KEY sc)
  && negb (String.eqb (DEEPGRAM_API_KEY sc) placeholder_key)
  && match client_raises sc with None => true | Some _ => false end
  && match start_outcome sc with StartReturns true => true | _ => false end.

(** [ceil(S / 4096)] *)
Definition ceil_div (n d : nat) : nat := (n + (d - 1)) / d.

(** The events delivered during the [n] sends that follow the first [k0]. *)
Definition events_sent (sc : scenario) (k0 n : nat) : list event :=
  mjoin ((fun k => send_events sc !!! k) <$> seq k0 n).

(** The run reaches the evaluation of line 131: the credential is accepted,
    no SDK call raises and [start] answers true. *)
Definition reaches_finalization (sc : scenario) : Prop :=
  configured sc
  ∧ client_raises sc = None
  ∧ start_outcome sc = StartReturns true
  ∧ ∀ k, k < ceil_div (length (upload sc)) chunk_size → send_exception sc k = None.

(** The events delivered before line 131 in such a run, in arrival order,
    and the variables they leave. *)
Definition delivered (sc : scenario) : list event :=
  start_events sc
  ++ events_sent sc 0 (ceil_div (length (upload sc)) chunk_size)
  ++ finish_events sc
  ++ settle_events sc.

Definition at_finalization (sc : scenario) : closure :=
  deliver (delivered sc) (Closure "" None).

(** The connection is down once [n] sends are made: it was lost during one
    of them. *)
Definition lost_by (sc : scenario) (n : nat) : bool :=
  match connection_lost_at sc with
  | Some j => (j <? n)%nat
  | None => false
  end.

(** An SDK call raises [e] during session setup or during streaming; the
    last argument tells whether the connection is up when it does: it is
    not during setup, and during streaming it is unless it was lost during
    the failing [send] or an earlier one. *)
Inductive sdk_raises (sc : scenario) (e : exn) : bool → Prop :=
| raises_in_setup :
    client_raises sc = Some e →
    sdk_raises sc e false
| raises_in_start :
    client_raises sc = None →
    start_outcome sc = StartRaises e →
    sdk_raises sc e false
| raises_in_send (k : nat) (up : bool) :
    client_raises sc = None →
    start_outcome sc = StartReturns true →
    send_raises sc = Some (k, e) →
    k < ceil_div (length (upload sc)) chunk_size →
    up = negb (lost_by sc (S k)) →
    sdk_raises sc e up.

(** The [send] that raises, when the upload has a chunk for it. *)
Definition failing_send (sc : scenario) : option (nat * exn) :=
  match send_raises sc with
  | Some (k, e) =>
      if (k <? ceil_div (length (upload sc)) chunk_size)%nat then Some (k, e) else None
  | None => None
  end.


(** ** Requests used as examples *)

Definition transcript_event (text : string) : event :=
  Transcript (LiveResult (Channel [Alternative text])).

Definition error_event (message : string) : event :=
  Error {[ "message" := PyStr message ]}.

Definition some_key : string := "0123456789abcdef0123456789abcdef01234567".

(** 4100 bytes, two fragments around an empty one, no error. *)
Definition request_hello_world : scenario :=
  Scenario (Some some_key) (replicate 4100 Byte.x00) None
           [Open] (StartReturns true)
           [[transcript_event "hello"]; [transcript_event ""; transcript_event "world"]]
           None [Close] [] None.

(** An empty upload: nothing is sent and nothing is transcribed. *)
Definition request_empty_upload : scenario :=
  Scenario (Some some_key) [] None [Open] (StartReturns true) [] None [Close] [] None.

(** A fragment, then an error event whose message is the empty string. *)
Definition request_empty_error_message : scenario :=
  Scenario (Some some_key) (replicate 5 Byte.x00) None
           [Open] (StartReturns true)
           [[transcript_event "hello"; error_event ""]]
           None [Close] [] None.

(** An error event without a ["message"] key, during the settle period. *)
Definition request_error_without_message : scenario :=
  Scenario (Some some_key) (replicate 5 Byte.x00) None
           [Open] (StartReturns true)
           [[transcript_event "hello"]]
           None [] [Error ∅] None.

(** The environment variable is not set. *)
Definition request_without_key : scenario :=
  Scenario None (replicate 5 Byte.x00) None [] (StartReturns true) [] None [] [] None.

(** [start] answers false after an error event with a message. *)
Definition request_start_refused : scenario :=
  Scenario (Some some_key) (replicate 5 Byte.x00) None
           [error_event "bad gateway"] (StartReturns false) [] None [] [] None.

(** [start] answers false after an error event whose message is empty. *)
Definition request_start_refused_empty_message : scenario :=
  Scenario (Some some_key) (replicate 5 Byte.x00) None
           [error_event ""] (StartReturns false) [] None [] [] None.

(** [start] raises an exception that is not the SDK's. *)
Definition request_start_raises : scenario :=
  Scenario (Some some_key) (replicate 5 Byte.x00) None
           [] (StartRaises (Exception "connection reset")) [] None [] [] None.

(** The second [send] raises the SDK's exception. *)
Definition request_send_raises : scenario :=
  Scenario (Some some_key) (replicate 4100 Byte.x00) None
           [Open] (StartReturns true) [[transcript_event "hello"]]
           (Some (1, DeepgramError "Invalid AUTH token")) [Close] [] None.

(** A fragment, then an error event with a message, then another fragment. *)
Definition request_error_between_fragments : scenario :=
  Scenario (Some some_key) (replicate 5 Byte.x00) None
           [Open] (StartReturns true)
           [[transcript_event "hello"; error_event "rate limited"]]
           None [transcript_event "world"; Close] [] None.

(** The fragments of [request_hello_world] among events that only log, all
    delivered during [start]. *)
Definition request_hello_world_noisy : scenario :=
  Scenario (Some some_key) (replicate 7 Byte.x00) None
           [Open; SpeechStarted; transcript_event "hello"; Metadata;
            transcript_event "world"; UtteranceEnd]
           (StartReturns true) [[Unhandled]] None [Close] [] None.

(** The connection is lost during the second [send], which raises. *)
Definition request_connection_lost : scenario :=
  Scenario (Some some_key) (replicate 4100 Byte.x00) None
           [Open] (StartReturns true) [[transcript_event "hello"]]
           (Some (1, Exception "socket closed")) [] [] (Some 1).

(** ** Vocabulary of the further properties *)

(** Two requests that differ at most in the events the SDK delivers. *)
Definition same_script (sc sc' : scenario) : Prop :=
  env_key sc = env_key sc'
  ∧ upload sc = upload sc'
  ∧ client_raises sc = client_raises sc'
  ∧ start_outcome sc = start_outcome sc'
  ∧ send_raises sc = send_raises sc'
  ∧ connection_lost_at sc = connection_lost_at sc'.

(** * Properties *)


(** ** Strings *)

Lemma app_assoc_str (a b c : string) : (a +:+ b) +:+ c = a +:+ (b +:+ c).
Proof.
  induction a as [|x a IH]; [done|].
  change (String x ((a +:+ b) +:+ c) = String x (a +:+ b +:+ c)).
  by rewrite IH.
Qed.

Lemma truthy_length (s : string) : (0 <? String.length s)%nat = truthy s.
Proof. by destruct s. Qed.

Lemma truthy_false (s : string) : truthy s = false ↔ s = "".
Proof. destruct s; simpl; split; congruence. Qed.

Lemma truthy_app_l (a b : string) : truthy a = true → truthy (a +:+ b) = true.
Proof. by destruct a. Qed.

Lemma first_char_app (a b : string) :
  truthy a = true → first_char (a +:+ b) = first_char a.
Proof. by destruct a. Qed.

Lemma last_char_app (a b : string) :
  truthy b = true → last_char (a +:+ b) = last_char b.
Proof.
  intros Hb. induction a as [|c a IH]; [done|].
  change (last_char (String c (a +:+ b)) = last_char b).
  rewrite <- IH. cbn [last_char].
  destruct (a +:+ b) eqn:E; [|done].
  destruct a; [|done]. change (b = "") in E. by rewrite E in Hb.
Qed.

(** ** The transcript accumulator *)

Lemma fragments_cons (e : event) (evs : list event) :
  fragments (e :: evs)
  = match fragment e with
    | Some f => f :: fragments evs
    | None => fragments evs
    end.
Proof. done. Qed.

Lemma on_event_fragment (e : event) (v : closure) (f : string) :
  fragment e = Some f →
  on_event e v =
    Closure (transcription_result v +:+
               (if truthy (transcription_result v) then " " +:+ f else f))
            (deepgram_error_message v).
Proof.
  destruct e as [|[[alts]]| | | | | |]; simpl; try done.
  unfold on_message; simpl. destruct alts as [|alt alts]; simpl; [done|].
  rewrite truthy_length. destruct (truthy (transcript alt)); [|done].
  by intros [= ->].
Qed.

Lemma fragment_truthy (e : event) (f : string) :
  fragment e = Some f → truthy f = true.
Proof.
  destruct e as [|[[alts]]| | | | | |]; simpl; try done.
  destruct alts as [|alt alts]; [done|].
  destruct (truthy (transcript alt)) eqn:E; [|done]. by intros [= <-].
Qed.

Lemma on_event_no_fragment (e : event) (v : closure) :
  fragment e = None →
  transcription_result (on_event e v) = transcription_result v.
Proof.
  destruct e as [|[[alts]]| | | | | |]; simpl; try done.
  unfold on_message; simpl. destruct alts as [|alt alts]; simpl; [done|].
  rewrite truthy_length. by destruct (truthy (transcript alt)).
Qed.

Lemma deliver_app (evs1 evs2 : list event) (v : closure) :
  deliver (evs1 ++ evs2) v = deliver evs2 (deliver evs1 v).
Proof. apply foldl_app. Qed.

Lemma concat_cons_space (a f : string) (fs : list string) :
  String.concat " " ((a +:+ " " +:+ f) :: fs) = a +:+ " " +:+ String.concat " " (f :: fs).
Proof.
  destruct fs as [|g fs]; [done|].
  cbn [String.concat]. by rewrite !app_assoc_str.
Qed.

Lemma deliver_onto (evs : list event) (v : closure) :
  truthy (transcription_result v) = true →
  transcription_result (deliver evs v)
  = String.concat " " (transcription_result v :: fragments evs).
Proof.
  revert v. induction evs as [|e evs IH]; intros v Hv; [done|].
  cbn [deliver foldl]. change (foldl _ ?a evs) with (deliver evs a).
  rewrite fragments_cons. destruct (fragment e) as [f|] eqn:Ef.
  - rewrite (on_event_fragment _ _ _ Ef), Hv.
    rewrite IH by (by apply truthy_app_l).
    cbn [transcription_result]. apply concat_cons_space.
  - rewrite IH by (by rewrite on_event_no_fragment).
    by rewrite on_event_no_fragment.
Qed.

Lemma deliver_from_empty (evs : list event) (v : closure) :
  transcription_result v = "" →
  transcription_result (deliver evs v) = String.concat " " (fragments evs).
Proof.
  revert v. induction evs as [|e evs IH]; intros v Hv; [done|].
  cbn [deliver foldl]. change (foldl _ ?a evs) with (deliver evs a).
  rewrite fragments_cons. destruct (fragment e) as [f|] eqn:Ef.
  - rewrite deliver_onto; rewrite (on_event_fragment _ _ _ Ef), Hv; simpl.
    + done.
    + by apply fragment_truthy in Ef.
  - apply IH. by rewrite on_event_no_fragment.
Qed.

Lemma fragments_truthy (evs : list event) :
  Forall (fun f => truthy f = true) (fragments evs).
Proof.
  induction evs as [|e evs IH]; [constructor|].
  rewrite fragments_cons. destruct (fragment e) eqn:E; [|done].
  constructor; [by eapply fragment_truthy | done].
Qed.

Lemma first_char_concat (fs : list string) :
  Forall (fun f => truthy f = true) fs →
  first_char (String.concat " " fs) = first_char (hd "" fs).
Proof.
  destruct 1 as [|f fs Hf Hfs]; [done|].
  destruct fs; [done|]. cbn [String.concat hd]. by apply first_char_app.
Qed.

Lemma last_char_concat (fs : list string) :
  Forall (fun f => truthy f = true) fs →
  last_char (String.concat " " fs) = last_char (List.last fs "").
Proof.
  induction 1 as [|f fs Hf Hfs IH]; [done|].
  destruct fs as [|g fs]; [done|].
  change (String.concat " " (f :: g :: fs)) with (f +:+ " " +:+ String.concat " " (g :: fs)).
  change (List.last (f :: g :: fs) "") with (List.last (g :: fs) "").
  rewrite <- IH. rewrite <- app_assoc_str. apply last_char_app.
  inversion Hfs; subst. destruct fs; [done|].
  cbn [String.concat]. by apply truthy_app_l.
Qed.

(** C1, the counterexample.  The fragments " " and "x" are both non-empty
    and arrive in this order: the transcript is "  x", which begins with a
    space; in the other order it is "x  ", which ends with one.  The
    callback appends the text as it comes and strips nothing. *)
Lemma C1_fragment_spaces_are_kept :
  fragments [transcript_event " "; transcript_event "x"] = [" "; "x"]
  ∧ transcription_result
      (deliver [transcript_event " "; transcript_event "x"] (Closure "" None))
    = "  x"
  ∧ first_char
      (transcription_result
         (deliver [transcript_event " "; transcript_event "x"] (Closure "" None)))
    = Some " "%char
  ∧ last_char
      (transcription_result
         (deliver [transcript_event "x"; transcript_event " "] (Closure "" None)))
    = Some " "%char.
Proof. repeat split; vm_compute; reflexivity. Qed.

(** C1, as the code has it.  Whatever events the SDK delivers to the
    callbacks of one request, the accumulated transcript is the non-empty
    fragments F1..Fn of the transcript events, in arrival order, joined by
    single spaces: F1 + " " + F2 + ... + " " + Fn.  A transcript event whose
    text is empty leaves the variables as they are and contributes no
    separator, so the accumulation puts no space before F1 or after Fn: the
    transcript begins with the first character of F1 and ends with the last
    character of Fn, and has a leading or trailing space only when F1 begins
    or Fn ends with one.  This is the transcript the handler evaluates at
    line 131. *)
Theorem C1_transcript_is_space_joined_fragments :
  (∀ evs : list event,
     transcription_result (deliver evs (Closure "" None))
     = String.concat " " (fragments evs))
  ∧ (∀ (alts : list alternative) (v : closure),
       on_event (Transcript (LiveResult (Channel (Alternative "" :: alts)))) v = v)
  ∧ (∀ evs : list event,
       let final := transcription_result (deliver evs (Closure "" None)) in
       first_char final = first_char (hd "" (fragments evs))
       ∧ last_char final = last_char (List.last (fragments evs) ""))
  ∧ (∀ sc : scenario,
       transcription_result (at_finalization sc)
       = String.concat " " (fragments (delivered sc))).
Proof.
  split; [|split; [|split]].
  - intros evs. by apply deliver_from_empty.
  - done.
  - intros evs final. subst final. rewrite deliver_from_empty by done.
    split; [apply first_char_concat | apply last_char_concat];
      apply fragments_truthy.
  - intros sc. by apply deliver_from_empty.
Qed.

(** ** The captured provider error *)

Lemma error_messages_cons (e : event) (evs : list event) :
  error_messages (e :: evs)
  = match error_message_of e with
    | Some m => m :: error_messages evs
    | None => error_messages evs
    end.
Proof. done. Qed.

Lemma on_event_error_message (e : event) (v : closure) :
  deepgram_error_message (on_event e v)
  = match error_message_of e with
    | Some m => Some m
    | None => deepgram_error_message v
    end.
Proof.
  destruct e as [|[[alts]]| | | | | |]; simpl; try done.
  unfold on_message; simpl. destruct alts as [|alt alts]; simpl; [done|].
  by destruct (0 <? String.length (transcript alt))%nat.
Qed.

Lemma deliver_error_message (evs : list event) (v : closure) :
  deepgram_error_message (deliver evs v)
  = match last (error_messages evs) with
    | Some m => Some m
    | None => deepgram_error_message v
    end.
Proof.
  revert v. induction evs as [|e evs IH]; intros v; [done|].
  cbn [deliver foldl]. change (foldl _ ?a evs) with (deliver evs a).
  rewrite IH, on_event_error_message, error_messages_cons.
  destruct (error_message_of e) as [m|]; [|done].
  rewrite last_cons. by destruct (last (error_messages evs)).
Qed.

Lemma error_messages_app (evs1 evs2 : list event) :
  error_messages (evs1 ++ evs2) = error_messages evs1 ++ error_messages evs2.
Proof. apply omap_app. Qed.

(** C9.  The variable [deepgram_error_message] holds one message or none.
    Each error event overwrites it with the text of that event: the value
    under ["message"] when the payload has one, whatever was captured
    before.  So after any sequence of events it holds the text of the last
    error event, and the other events leave it as it is. *)
Theorem C9_last_error_wins :
  (∀ (error : gmap string pyval) (v : closure),
     deepgram_error_message (on_event (Error error) v) = Some (error_text error))
  ∧ (∀ (error : gmap string pyval) (m : string),
       error_text (<["message" := PyStr m]> error) = m)
  ∧ (∀ (evs : list event) (error : gmap string pyval) (v : closure),
       deepgram_error_message (deliver (evs ++ [Error error]) v)
       = Some (error_text error))
  ∧ (∀ (evs : list event) (v : closure),
       deepgram_error_message (deliver evs v)
       = match last (error_messages evs) with
         | Some m => Some m
         | None => deepgram_error_message v
         end).
Proof.
  split; [|split; [|split]].
  - done.
  - intros error m. unfold error_text. by rewrite lookup_insert_eq.
  - intros evs error v. by rewrite deliver_app.
  - apply deliver_error_message.
Qed.

(** ** Running the handler's monad *)

Ltac run_step :=
  unfold try_except, try_finally, finish_if_connected, dg_finish, sleep, file_read;
  unfold mbind, M_bind, fmap, M_fmap, mret, M_ret, get, raise, modify,
    connection_is_up;
  cbn [fst snd nonlocals dg_connection file_rest calls is_connected
       set_nonlocals set_dg_connection set_file_rest log_call deliver_to].

Lemma chunk_size_pos : 0 < chunk_size.
Proof. unfold chunk_size. lia. Qed.

Lemma chunk_size_eq : chunk_size = 4096.
Proof. done. Qed.

#[local] Opaque chunk_size.

Lemma sends_snoc (cs : list call) (data : list Byte.byte) :
  sends (cs ++ [CallSend data]) = sends cs ++ [data].
Proof. unfold sends. by rewrite omap_app. Qed.

Lemma sends_map (cs : list (list Byte.byte)) : sends (CallSend <$> cs) = cs.
Proof.
  induction cs as [|c cs IH]; [done|].
  change (c :: sends (CallSend <$> cs) = c :: cs). by rewrite IH.
Qed.

Lemma finish_count_app (l1 l2 : list call) :
  finish_count (l1 ++ l2) = finish_count l1 + finish_count l2.
Proof. unfold finish_count. by rewrite filter_app, length_app. Qed.

Lemma finish_count_snoc (l : list call) (c : call) :
  finish_count (l ++ [c]) = finish_count l + (if is_finish c then 1 else 0).
Proof. rewrite finish_count_app. f_equal. by destruct c. Qed.

Lemma connection_after_send_frame (sc : scenario) (k : nat) (w : world) :
  nonlocals (connection_after_send sc k w) = nonlocals w
  ∧ file_rest (connection_after_send sc k w) = file_rest w
  ∧ calls (connection_after_send sc k w) = calls w.
Proof.
  unfold connection_after_send.
  destruct (connection_lost_at sc) as [j|]; [|done]. by destruct (j =? k)%nat.
Qed.

(** The world after the [send] of [data], before the events of that [send]
    are delivered. *)
Lemma sent_frame (sc : scenario) (data : list Byte.byte) (w : world) :
  let w1 := connection_after_send sc (length (sends (calls w)))
              (log_call (CallSend data)
                 (set_file_rest (drop chunk_size (file_rest w)) w)) in
  nonlocals w1 = nonlocals w
  ∧ file_rest w1 = drop chunk_size (file_rest w)
  ∧ calls w1 = calls w ++ [CallSend data].
Proof.
  cbv zeta. by destruct (connection_after_send_frame sc (length (sends (calls w)))
    (log_call (CallSend data) (set_file_rest (drop chunk_size (file_rest w)) w)))
    as (-> & -> & ->).
Qed.

(** One iteration of the loop of lines 116-120. *)
Lemma stream_loop_S (sc : scenario) (fuel : nat) (w : world) :
  stream_loop sc (S fuel) w
  = let w0 := set_file_rest (drop chunk_size (file_rest w)) w in
    match take chunk_size (file_rest w) with
    | [] => (Returned tt, w0)
    | d :: ds =>
        let w1 := connection_after_send sc (length (sends (calls w)))
                    (log_call (CallSend (d :: ds)) w0) in
        match send_exception sc (length (sends (calls w))) with
        | Some e => (Raised e, w1)
        | None =>
            stream_loop sc fuel
              (deliver_to (send_events sc !!! length (sends (calls w))) w1)
        end
    end.
Proof.
  cbn [stream_loop]. run_step.
  destruct (take chunk_size (file_rest w)) as [|d ds]; [done|].
  unfold dg_send. run_step.
  by destruct (send_exception sc (length (sends (calls w)))).
Qed.

(** The loop never calls [finish]. *)
Lemma stream_loop_frame (sc : scenario) (fuel : nat) (w : world) :
  finish_count (calls (snd (stream_loop sc fuel w))) = finish_count (calls w).
Proof.
  revert w. induction fuel as [|fuel IH]; intros w; [done|].
  rewrite stream_loop_S. cbv zeta.
  destruct (take chunk_size (file_rest w)) as [|d ds]; [done|].
  destruct (sent_frame sc (d :: ds) w) as (_ & _ & Hcalls).
  destruct (send_exception sc (length (sends (calls w)))) as [e|].
  - cbn [snd]. rewrite Hcalls, finish_count_snoc. cbn [is_finish]. lia.
  - rewrite IH. cbn [calls deliver_to set_nonlocals].
    rewrite Hcalls, finish_count_snoc. cbn [is_finish]. lia.
Qed.

(** During the loop the connection is up exactly as long as it has not been
    lost during one of the sends made. *)
Lemma stream_loop_connection (sc : scenario) (fuel : nat) (w : world) :
  dg_connection w = Some (LiveClient (negb (lost_by sc (length (sends (calls w)))))) →
  dg_connection (snd (stream_loop sc fuel w))
  = Some (LiveClient
            (negb (lost_by sc (length (sends (calls (snd (stream_loop sc fuel w)))))))).
Proof.
  revert w. induction fuel as [|fuel IH]; intros w Hinv; [done|].
  rewrite stream_loop_S. cbv zeta.
  destruct (take chunk_size (file_rest w)) as [|d ds]; [done|].
  destruct (sent_frame sc (d :: ds) w) as (_ & _ & Hcalls).
  set (w1 := connection_after_send sc _ _) in *.
  assert (Hinv1 : dg_connection w1
                  = Some (LiveClient (negb (lost_by sc (length (sends (calls w1))))))).
  { rewrite Hcalls, sends_snoc, length_app. cbn [length].
    rewrite Nat.add_1_r. subst w1. unfold connection_after_send, lost_by in *.
    destruct (connection_lost_at sc) as [j|];
      cbn [dg_connection log_call set_file_rest set_dg_connection]; [|done].
    destruct (Nat.eqb_spec j (length (sends (calls w)))) as [->|Hne];
      cbn [dg_connection log_call set_file_rest set_dg_connection].
    - by rewrite (proj2 (Nat.ltb_lt _ _)) by lia.
    - rewrite Hinv. do 3 f_equal.
      destruct (Nat.ltb_spec j (length (sends (calls w)))),
               (Nat.ltb_spec j (S (length (sends (calls w))))); done || lia. }
  destruct (send_exception sc (length (sends (calls w)))) as [e|]; [done|].
  apply IH. by cbn [dg_connection calls deliver_to set_nonlocals].
Qed.

Lemma take_chunk_nil (l : list Byte.byte) : take chunk_size l = [] → l = [].
Proof.
  pose proof chunk_size_pos. destruct chunk_size; [lia|]. by destruct l.
Qed.

Lemma drop_chunk_shorter (l : list Byte.byte) (d : Byte.byte) (ds : list Byte.byte) :
  take chunk_size l = d :: ds → length (drop chunk_size l) < length l.
Proof.
  pose proof chunk_size_pos. intros Ht. rewrite length_drop.
  destruct l; [by rewrite take_nil in Ht|]. simpl. lia.
Qed.

(** The fuel the handler gives to the loop is enough. *)
Lemma stream_loop_fuel (sc : scenario) (fuel : nat) (w : world) :
  length (file_rest w) < fuel → fst (stream_loop sc fuel w) ≠ OutOfFuel.
Proof.
  revert w. induction fuel as [|fuel IH]; intros w Hlen; [lia|].
  rewrite stream_loop_S. cbv zeta.
  destruct (take chunk_size (file_rest w)) as [|d ds] eqn:Et; [done|].
  destruct (send_exception sc (length (sends (calls w)))) as [e|]; [done|].
  destruct (sent_frame sc (d :: ds) w) as (_ & Hfile & _).
  apply IH. cbn [file_rest deliver_to set_nonlocals]. rewrite Hfile.
  apply drop_chunk_shorter in Et. lia.
Qed.

(** ** The chunks *)

Lemma ceil_div_0 (d : nat) : 0 < d → ceil_div 0 d = 0.
Proof. intros Hd. unfold ceil_div. apply Nat.div_small. lia. Qed.

Lemma ceil_div_step (n d : nat) :
  0 < d → 0 < n → ceil_div n d = S (ceil_div (n - d) d).
Proof.
  intros Hd Hn. unfold ceil_div.
  destruct (decide (d <= n)) as [Hle|Hlt].
  - replace (n + (d - 1)) with ((n - d + (d - 1)) + 1 * d) by lia.
    rewrite Nat.div_add by lia. lia.
  - replace (n - d) with 0 by lia.
    rewrite (Nat.div_small (0 + (d - 1))) by lia.
    symmetry. apply (Nat.div_unique _ _ _ (n - 1)); lia.
Qed.

Lemma ceil_div_pos (n d : nat) : 0 < d → 0 < ceil_div n d → 0 < n.
Proof.
  intros Hd Hc. destruct n; [|lia]. rewrite ceil_div_0 in Hc; lia.
Qed.

Lemma events_sent_S (sc : scenario) (k0 n : nat) :
  events_sent sc k0 (S n) = (send_events sc !!! k0) ++ events_sent sc (S k0) n.
Proof. done. Qed.

(** When no [send] raises, the loop sends the file in chunks and the
    callbacks have seen the events of each [send]. *)
Lemma stream_loop_ok (sc : scenario) (fuel : nat) (w : world) :
  length (file_rest w) < fuel →
  (∀ k, length (sends (calls w)) <= k
        < length (sends (calls w)) + ceil_div (length (file_rest w)) chunk_size →
        send_exception sc k = None) →
  ∃ (cs : list (list Byte.byte)) (conn : option live_client),
    stream_loop sc fuel w
    = (Returned tt,
       World (deliver (events_sent sc (length (sends (calls w))) (length cs))
                      (nonlocals w))
             conn [] (calls w ++ (CallSend <$> cs)))
    ∧ mjoin cs = file_rest w
    ∧ Forall (fun c => length c <= chunk_size) cs
    ∧ (∀ i c, cs !! i = Some c → S i < length cs → length c = chunk_size)
    ∧ length cs = ceil_div (length (file_rest w)) chunk_size.
Proof.
  pose proof chunk_size_pos as Hpos.
  revert w. induction fuel as [|fuel IH]; intros w Hlen Hsend; [lia|].
  rewrite stream_loop_S. cbv zeta.
  destruct (take chunk_size (file_rest w)) as [|d ds] eqn:Et.
  - apply take_chunk_nil in Et. exists [], (dg_connection w). rewrite Et.
    rewrite drop_nil, app_nil_r. cbn [length events_sent seq fmap list_fmap mjoin list_join deliver foldl].
    split; [|split; [done|split; [constructor|split; [done|]]]].
    + destruct w; cbn in *. by subst.
    + by rewrite ceil_div_0.
  - pose proof (drop_chunk_shorter _ _ _ Et) as Hdrop.
    assert (Hn : 0 < length (file_rest w)) by lia.
    pose proof (ceil_div_step _ _ Hpos Hn) as Hceil.
    rewrite <- length_drop in Hceil.
    rewrite Hsend by lia.
    destruct (sent_frame sc (d :: ds) w) as (Hvars & Hfile & Hcalls).
    set (w1 := deliver_to _ _).
    assert (Hv1 : nonlocals w1
                  = deliver (send_events sc !!! length (sends (calls w))) (nonlocals w)).
    { subst w1. cbn [nonlocals deliver_to set_nonlocals]. by rewrite Hvars. }
    assert (Hf1 : file_rest w1 = drop chunk_size (file_rest w)).
    { subst w1. by cbn [file_rest deliver_to set_nonlocals]. }
    assert (Hc1 : calls w1 = calls w ++ [CallSend (d :: ds)]).
    { subst w1. by cbn [calls deliver_to set_nonlocals]. }
    assert (Hk1 : length (sends (calls w1)) = S (length (sends (calls w)))).
    { rewrite Hc1, sends_snoc, length_app. simpl. lia. }
    destruct (IH w1) as (cs & conn & Hrun & Hjoin & Hall & Hfull & Hcount).
    { rewrite Hf1. lia. }
    { intros k Hk. apply Hsend. rewrite Hk1, Hf1 in Hk. lia. }
    exists ((d :: ds) :: cs), conn. rewrite Hrun, Hk1, Hv1, Hc1. rewrite Hf1 in *.
    split; [|split; [|split; [|split]]].
    + cbn [length]. rewrite events_sent_S, deliver_app.
      rewrite <- app_assoc. done.
    + change (mjoin ((d :: ds) :: cs)) with ((d :: ds) ++ mjoin cs).
      rewrite Hjoin, <- Et. apply take_drop.
    + constructor; [|done]. rewrite <- Et, length_take. lia.
    + intros [|i] c Hc Hi.
      * injection Hc as <-. cbn [length] in Hi.
        assert (0 < length (drop chunk_size (file_rest w))) as Hrest.
        { apply (ceil_div_pos _ chunk_size); lia. }
        rewrite length_drop in Hrest. rewrite <- Et, length_take. lia.
      * cbn [length] in Hi. apply (Hfull i); [done | lia].
    + cbn [length]. lia.
Qed.

(** When the [send] of index [k] raises and the file has that many chunks,
    the loop ends with that exception. *)
Lemma stream_loop_raises (sc : scenario) (fuel : nat) (w : world) (k : nat) (e : exn) :
  length (file_rest w) < fuel →
  send_raises sc = Some (k, e) →
  length (sends (calls w)) <= k
  < length (sends (calls w)) + ceil_div (length (file_rest w)) chunk_size →
  fst (stream_loop sc fuel w) = Raised e.
Proof.
  pose proof chunk_size_pos as Hpos.
  intros Hlen Hr. revert w Hlen.
  induction fuel as [|fuel IH]; intros w Hlen Hk; [lia|].
  rewrite stream_loop_S. cbv zeta.
  destruct (take chunk_size (file_rest w)) as [|d ds] eqn:Et.
  - apply take_chunk_nil in Et. rewrite Et in Hk. cbn [length] in Hk.
    rewrite ceil_div_0 in Hk by done. lia.
  - pose proof (drop_chunk_shorter _ _ _ Et) as Hdrop.
    assert (Hn : 0 < length (file_rest w)) by lia.
    pose proof (ceil_div_step _ _ Hpos Hn) as Hceil.
    rewrite <- length_drop in Hceil.
    unfold send_exception. rewrite Hr.
    destruct (length (sends (calls w)) =? k)%nat eqn:Ek; [done|].
    apply Nat.eqb_neq in Ek.
    destruct (sent_frame sc (d :: ds) w) as (_ & Hfile & Hcalls).
    apply IH; cbn [file_rest calls deliver_to set_nonlocals]; rewrite ?Hfile, ?Hcalls.
    + lia.
    + rewrite sends_snoc, length_app. simpl. lia.
Qed.

(** When the [send] of index [k] raises, the loop has made that [send] and
    the ones before, and they carry the beginning of the file. *)
Lemma stream_loop_raises_sends (sc : scenario) (fuel : nat) (w : world) (k : nat) (e : exn) :
  length (file_rest w) < fuel →
  send_raises sc = Some (k, e) →
  length (sends (calls w)) <= k
  < length (sends (calls w)) + ceil_div (length (file_rest w)) chunk_size →
  ∃ cs : list (list Byte.byte),
    sends (calls (snd (stream_loop sc fuel w))) = sends (calls w) ++ cs
    ∧ length cs = S k - length (sends (calls w))
    ∧ mjoin cs = take ((S k - length (sends (calls w))) * chunk_size) (file_rest w).
Proof.
  pose proof chunk_size_pos as Hpos.
  intros Hlen Hr. revert w Hlen.
  induction fuel as [|fuel IH]; intros w Hlen Hk; [lia|].
  rewrite stream_loop_S. cbv zeta.
  destruct (take chunk_size (file_rest w)) as [|d ds] eqn:Et.
  - apply take_chunk_nil in Et. rewrite Et in Hk. cbn [length] in Hk.
    rewrite ceil_div_0 in Hk by done. lia.
  - pose proof (drop_chunk_shorter _ _ _ Et) as Hdrop.
    assert (Hn : 0 < length (file_rest w)) by lia.
    pose proof (ceil_div_step _ _ Hpos Hn) as Hceil.
    rewrite <- length_drop in Hceil.
    unfold send_exception. rewrite Hr.
    destruct (sent_frame sc (d :: ds) w) as (_ & Hfile & Hcalls).
    destruct (Nat.eqb_spec (length (sends (calls w))) k) as [Heq|Hne].
    + exists [d :: ds]. cbn [snd]. rewrite Hcalls.
      rewrite sends_snoc. split; [done|].
      replace (S k - length (sends (calls w))) with 1 by lia.
      split; [done|].
      change (mjoin [d :: ds]) with ((d :: ds) ++ []).
      by rewrite app_nil_r, Nat.mul_1_l, Et.
    + set (w1 := deliver_to _ _).
      assert (Hf1 : file_rest w1 = drop chunk_size (file_rest w)).
      { subst w1. by cbn [file_rest deliver_to set_nonlocals]. }
      assert (Hc1 : calls w1 = calls w ++ [CallSend (d :: ds)]).
      { subst w1. by cbn [calls deliver_to set_nonlocals]. }
      assert (Hk1 : length (sends (calls w1)) = S (length (sends (calls w)))).
      { rewrite Hc1, sends_snoc, length_app. simpl. lia. }
      destruct (IH w1) as (cs & Hsends & Hcount & Hjoin).
      { rewrite Hf1. lia. }
      { rewrite Hk1, Hf1. lia. }
      exists ((d :: ds) :: cs). rewrite Hsends, Hk1, Hc1 in *. rewrite Hf1 in *.
      rewrite sends_snoc, <- app_assoc. split; [done|].
      split; [cbn [length]; lia|].
      change (mjoin ((d :: ds) :: cs)) with ((d :: ds) ++ mjoin cs).
      rewrite Hjoin, <- Et, take_take_drop. f_equal. lia.
Qed.

(** ** The paths of the handler *)

Lemma configured_check (sc : scenario) :
  configured sc →
  negb (truthy (DEEPGRAM_API_KEY sc))
  || String.eqb (DEEPGRAM_API_KEY sc) placeholder_key = false.
Proof.
  intros [Ht Hne]. rewrite Ht. by apply String.eqb_neq in Hne as ->.
Qed.

Lemma handle_configured (sc : scenario) :
  configured sc →
  handle sc
  = try_finally (try_except (try_body sc) (except_clauses sc))
                (finish_if_connected sc) (init_world sc).
Proof.
  intros Hc. unfold handle, transcribe_audio. by rewrite configured_check.
Qed.

(** The state in which the loop is entered. *)
Lemma try_body_started (sc : scenario) :
  client_raises sc = None →
  start_outcome sc = StartReturns true →
  try_body sc (init_world sc)
  = let w := World (deliver (start_events sc) (Closure "" None))
                   (Some (LiveClient true)) (upload sc)
                   [CallClient (DEEPGRAM_API_KEY sc); CallLive; CallStart] in
    match stream_loop sc (S (length (upload sc))) w with
    | (Returned _, w') =>
        let v := deliver (settle_events sc)
                   (deliver (finish_events sc) (nonlocals w')) in
        (Returned (evaluate v),
         World v (Some (LiveClient false)) (file_rest w') (calls w' ++ [CallFinish]))
    | (Raised e, w') => (Raised e, w')
    | (OutOfFuel, w') => (OutOfFuel, w')
    end.
Proof.
  intros Hclient Hstart. unfold try_body, new_live_connection, dg_start, init_world.
  run_step. rewrite Hclient. run_step. rewrite Hstart. run_step.
  cbn [negb app]. cbv zeta.
  destruct (stream_loop sc _ _) as [[[]|e|] w']; done.
Qed.

(** A run that reaches the evaluation returns what [evaluate] makes of the
    variables, after sending the file in chunks and closing the connection
    once. *)
Lemma handle_completes (sc : scenario) :
  reaches_finalization sc →
  ∃ cs : list (list Byte.byte),
    handle sc
    = (Returned (evaluate (at_finalization sc)),
       World (at_finalization sc) (Some (LiveClient false)) []
             ([CallClient (DEEPGRAM_API_KEY sc); CallLive; CallStart]
              ++ (CallSend <$> cs) ++ [CallFinish]))
    ∧ mjoin cs = upload sc
    ∧ Forall (fun c => length c <= chunk_size) cs
    ∧ (∀ i c, cs !! i = Some c → S i < length cs → length c = chunk_size)
    ∧ length cs = ceil_div (length (upload sc)) chunk_size.
Proof.
  intros (Hc & Hclient & Hstart & Hsend).
  rewrite handle_configured by done.
  unfold try_finally, try_except. rewrite try_body_started by done. cbv zeta.
  destruct (stream_loop_ok sc (S (length (upload sc)))
              (World (deliver (start_events sc) (Closure "" None))
                     (Some (LiveClient true)) (upload sc)
                     [CallClient (DEEPGRAM_API_KEY sc); CallLive; CallStart]))
    as (cs & conn & Hrun & Hjoin & Hall & Hfull & Hcount).
  { cbn [file_rest]. lia. }
  { cbn [file_rest calls]. intros k Hk. apply Hsend.
    change (length (sends _)) with 0 in Hk. lia. }
  exists cs. rewrite Hrun. cbn [file_rest calls nonlocals] in *.
  change (length (sends _)) with 0.
  split; [|done].
  run_step. rewrite Hcount. unfold at_finalization, delivered.
  rewrite !deliver_app, <- !app_assoc. done.
Qed.

(** ** Chunked streaming *)

(** Settles [reaches_finalization] for a request that is written out. *)
Ltac reaches_by_evaluation :=
  split; [split; [reflexivity | vm_compute; congruence]
         | split; [reflexivity | split; [reflexivity | intros ? _; reflexivity]]].

Lemma sends_of_completed_run (key : string) (cs : list (list Byte.byte)) :
  sends ([CallClient key; CallLive; CallStart] ++ (CallSend <$> cs) ++ [CallFinish])
  = cs.
Proof.
  unfold sends. rewrite !omap_app. fold (sends (CallSend <$> cs)).
  rewrite sends_map. apply app_nil_r.
Qed.

(** C4.  In a run that reaches the end of the streaming loop, with an upload
    of S bytes, the handler calls [send] exactly ceil(S/4096) times; each
    chunk has at most 4096 bytes and every chunk but the last has exactly
    4096; the chunks, concatenated in the order sent, are the upload; and an
    empty upload is never sent. *)
Theorem C4_upload_is_sent_in_4096_byte_chunks (sc : scenario) :
  reaches_finalization sc →
  let cs := sends (calls (snd (handle sc))) in
  length cs = (length (upload sc) + 4095) / 4096
  ∧ Forall (fun c => length c <= 4096) cs
  ∧ (∀ i c, cs !! i = Some c → S i < length cs → length c = 4096)
  ∧ mjoin cs = upload sc
  ∧ (upload sc = [] → cs = []).
Proof.
  intros Hreach.
  destruct (handle_completes sc Hreach) as (cs & -> & Hjoin & Hall & Hfull & Hcount).
  cbn [snd calls]. rewrite sends_of_completed_run. cbv zeta.
  rewrite chunk_size_eq in Hall, Hfull, Hcount.
  split; [exact Hcount|]. split; [exact Hall|]. split; [exact Hfull|].
  split; [exact Hjoin|].
  intros Hempty. rewrite Hempty in Hcount.
  by apply nil_length_inv.
Qed.

Lemma C4_upload_is_sent_in_4096_byte_chunks_witness :
  reaches_finalization request_hello_world
  ∧ length <$> sends (calls (snd (handle request_hello_world))) = [4096; 4]
  ∧ mjoin (sends (calls (snd (handle request_hello_world))))
    = upload request_hello_world.
Proof.
  assert (Hreach : reaches_finalization request_hello_world).
  { reaches_by_evaluation. }
  split; [exact Hreach|].
  split; [vm_compute; reflexivity|].
  apply (C4_upload_is_sent_in_4096_byte_chunks request_hello_world Hreach).
Defined.

(** ** The evaluation of lines 131-139 *)

(** C6.  A run that reaches the evaluation of line 131 with an empty
    [transcription_result] and no captured error ([deepgram_error_message]
    is [None]) returns the body with an empty transcription and the error
    text "No speech detected or empty audio.". *)
Theorem C6_no_speech_body (sc : scenario) :
  reaches_finalization sc →
  transcription_result (at_finalization sc) = "" →
  deepgram_error_message (at_finalization sc) = None →
  fst (handle sc)
  = Returned (Body "" (Some "No speech detected or empty audio.")).
Proof.
  intros Hreach Htr Herr.
  destruct (handle_completes sc Hreach) as (cs & -> & _).
  cbn [fst]. unfold evaluate. by rewrite Htr, Herr.
Qed.

Lemma C6_no_speech_body_witness :
  fst (handle request_empty_upload)
  = Returned (Body "" (Some "No speech detected or empty audio."))
  ∧ sends (calls (snd (handle request_empty_upload))) = [].
Proof.
  split; [|vm_compute; reflexivity].
  apply (C6_no_speech_body request_empty_upload).
  - reaches_by_evaluation.
  - vm_compute; reflexivity.
  - vm_compute; reflexivity.
Defined.

(** A captured error whose text is not empty wins over the transcript. *)
Lemma provider_error_reported (sc : scenario) (m : string) :
  reaches_finalization sc →
  last (error_messages (delivered sc)) = Some m →
  m ≠ "" →
  fst (handle sc) = Returned (Body "" (Some ("Deepgram error: " +:+ m))).
Proof.
  intros Hreach Hlast Hm.
  destruct (handle_completes sc Hreach) as (cs & -> & _).
  cbn [fst]. unfold evaluate, at_finalization.
  rewrite deliver_error_message, Hlast.
  destruct (truthy m) eqn:E; [done|]. by apply truthy_false in E.
Qed.

(** C2.  The request [request_empty_error_message]: a fragment "hello"
    arrives, then an error event whose message is the empty string, both
    before the evaluation.  The error is captured ([deepgram_error_message]
    is the empty string, not [None]), yet the handler returns the transcript
    "hello" without an error, where the error body was due: the test of line
    131 takes the empty string for no error. *)
Theorem C2_empty_error_message_is_dropped :
  reaches_finalization request_empty_error_message
  ∧ error_messages (delivered request_empty_error_message) = [""]
  ∧ deepgram_error_message (at_finalization request_empty_error_message) = Some ""
  ∧ fst (handle request_empty_error_message) = Returned (Body "hello" None).
Proof.
  split; [|split; [|split]]; try (vm_compute; reflexivity).
  reaches_by_evaluation.
Qed.

(** C10.  An error event whose payload has no ["message"] key makes
    [on_error] store "Unknown Deepgram error"; when it is the last error
    event before the evaluation, the variable holds that text at line 131 and
    the handler returns the body with an empty transcription and the error
    "Deepgram error: Unknown Deepgram error". *)
Theorem C10_error_without_message (sc : scenario) (error : gmap string pyval)
    (before after : list event) (v : closure) :
  error !! "message" = None →
  reaches_finalization sc →
  delivered sc = before ++ Error error :: after →
  error_messages after = [] →
  deepgram_error_message (on_error error v) = Some "Unknown Deepgram error"
  ∧ deepgram_error_message (at_finalization sc) = Some "Unknown Deepgram error"
  ∧ fst (handle sc)
    = Returned (Body "" (Some "Deepgram error: Unknown Deepgram error")).
Proof.
  intros Hmsg Hreach Hdel Hafter.
  assert (Htext : error_text error = "Unknown Deepgram error").
  { unfold error_text. by rewrite Hmsg. }
  assert (Hlast : last (error_messages (delivered sc)) = Some "Unknown Deepgram error").
  { rewrite Hdel, error_messages_app, error_messages_cons.
    cbn [error_message_of]. rewrite Hafter, Htext. apply last_snoc. }
  split; [|split].
  - cbn. by rewrite Htext.
  - unfold at_finalization. by rewrite deliver_error_message, Hlast.
  - by apply provider_error_reported.
Qed.

Lemma C10_error_without_message_witness :
  fst (handle request_error_without_message)
  = Returned (Body "" (Some "Deepgram error: Unknown Deepgram error")).
Proof.
  apply (C10_error_without_message request_error_without_message ∅
           [Open; transcript_event "hello"] [] (Closure "" None)).
  - reflexivity.
  - reaches_by_evaluation.
  - vm_compute; reflexivity.
  - reflexivity.
Defined.

(** ** The credential check *)

(** C5.  When the environment variable is not set (the constant is then the
    placeholder), is empty, or holds the placeholder itself, the handler
    raises [HTTPException] with status 500 and the detail "Deepgram API key
    not configured." before anything else: no SDK call is made and no
    connection object exists. *)
Theorem C5_credential_not_configured (sc : scenario) :
  env_key sc = None ∨ env_key sc = Some "" ∨ env_key sc = Some placeholder_key →
  fst (handle sc) = Raised (HTTPException 500 "Deepgram API key not configured.")
  ∧ calls (snd (handle sc)) = []
  ∧ dg_connection (snd (handle sc)) = None.
Proof.
  unfold handle, transcribe_audio, DEEPGRAM_API_KEY.
  intros [-> | [-> | ->]]; done.
Qed.

Lemma C5_credential_not_configured_witness :
  fst (handle request_without_key)
  = Raised (HTTPException 500 "Deepgram API key not configured.")
  ∧ calls (snd (handle request_without_key)) = []
  ∧ dg_connection (snd (handle request_without_key)) = None.
Proof.
  apply (C5_credential_not_configured request_without_key).
  left. reflexivity.
Defined.

(** ** The exits of the handler *)

(** What the [except] clauses and the [finally] block make of the outcome
    of the [try] body: the connection is down afterwards, [finish] is called
    once more exactly when the body left the connection up, and the SDK's
    and the other exceptions are turned into [HTTPException]s. *)
Lemma exits (sc : scenario) (attempt : M body) (w w' : world) (r : outcome body) :
  attempt w = (r, w') →
  r ≠ OutOfFuel →
  let final :=
    try_finally (try_except attempt (except_clauses sc)) (finish_if_connected sc) w in
  connection_is_up (snd final) = false
  ∧ finish_count (calls (snd final))
    = finish_count (calls w') + (if connection_is_up w' then 1 else 0)
  ∧ fst final
    = match r with
      | Raised (DeepgramError msg) =>
          Raised (HTTPException 500
                    (if str_in "auth" (lower msg)
                     then "Deepgram authentication error. Check API Key."
                     else "Deepgram API error: " +:+ msg))
      | Raised (Exception msg) =>
          Raised (HTTPException 500 ("An unexpected server error occurred: " +:+ msg))
      | _ => r
      end.
Proof.
  intros Hbody Hfuel. cbv zeta. unfold try_finally, try_except. rewrite Hbody.
  destruct w' as [v conn rest cs].
  destruct r as [b|[msg|code detail|msg]|];
    destruct conn as [[[|]]|]; unfold except_clauses; run_step;
    rewrite ?finish_count_snoc; cbn [is_finish]; repeat split; done || lia.
Qed.

(** The [try] body on each of its paths. *)
Lemma try_body_client_raises (sc : scenario) (e : exn) :
  client_raises sc = Some e →
  try_body sc (init_world sc)
  = (Raised e,
     World (Closure "" None) None (upload sc) [CallClient (DEEPGRAM_API_KEY sc)]).
Proof.
  intros Hclient. unfold try_body, new_live_connection, init_world.
  run_step. by rewrite Hclient.
Qed.

Lemma try_body_start_raises (sc : scenario) (e : exn) :
  client_raises sc = None →
  start_outcome sc = StartRaises e →
  try_body sc (init_world sc)
  = (Raised e,
     World (deliver (start_events sc) (Closure "" None))
           (Some (LiveClient false)) (upload sc)
           [CallClient (DEEPGRAM_API_KEY sc); CallLive; CallStart]).
Proof.
  intros Hclient Hstart. unfold try_body, new_live_connection, dg_start, init_world.
  run_step. rewrite Hclient. run_step. by rewrite Hstart.
Qed.

Lemma try_body_start_refused (sc : scenario) :
  client_raises sc = None →
  start_outcome sc = StartReturns false →
  try_body sc (init_world sc)
  = (Raised (HTTPException 500
               (or_else (deepgram_error_message
                           (deliver (start_events sc) (Closure "" None)))
                        "Failed to connect to Deepgram (initiation phase).")),
     World (deliver (start_events sc) (Closure "" None))
           (Some (LiveClient false)) (upload sc)
           [CallClient (DEEPGRAM_API_KEY sc); CallLive; CallStart]).
Proof.
  intros Hclient Hstart. unfold try_body, new_live_connection, dg_start, init_world.
  run_step. rewrite Hclient. run_step. by rewrite Hstart.
Qed.

Lemma lost_by_0 (sc : scenario) : lost_by sc 0 = false.
Proof. unfold lost_by. by destruct (connection_lost_at sc). Qed.

Lemma failing_send_None (sc : scenario) :
  failing_send sc = None →
  ∀ k, k < ceil_div (length (upload sc)) chunk_size → send_exception sc k = None.
Proof.
  unfold failing_send, send_exception. intros Hnone k Hk.
  destruct (send_raises sc) as [[k' e]|]; [|done].
  destruct (Nat.eqb_spec k k') as [->|]; [|done].
  by rewrite (proj2 (Nat.ltb_lt _ _)) in Hnone by done.
Qed.

Lemma failing_send_Some (sc : scenario) (k : nat) (e : exn) :
  failing_send sc = Some (k, e) →
  send_raises sc = Some (k, e) ∧ k < ceil_div (length (upload sc)) chunk_size.
Proof.
  unfold failing_send. destruct (send_raises sc) as [[k' e']|]; [|done].
  destruct (Nat.ltb_spec k' (ceil_div (length (upload sc)) chunk_size)); [|done].
  by intros [= -> ->].
Qed.

(** A [send] raises in a started session: the [try] body ends with that
    exception after [k + 1] sends and no [finish], and the connection is up
    unless it was lost by then. *)
Lemma try_body_send_raises (sc : scenario) (k : nat) (e : exn) :
  client_raises sc = None →
  start_outcome sc = StartReturns true →
  send_raises sc = Some (k, e) →
  k < ceil_div (length (upload sc)) chunk_size →
  ∃ w',
    try_body sc (init_world sc) = (Raised e, w')
    ∧ finish_count (calls w') = 0
    ∧ connection_is_up w' = negb (lost_by sc (S k))
    ∧ length (sends (calls w')) = S k
    ∧ mjoin (sends (calls w')) = take (S k * chunk_size) (upload sc).
Proof.
  intros Hclient Hstart Hsend Hk. rewrite try_body_started by done. cbv zeta.
  set (w := World _ _ _ _).
  assert (Hlen : length (file_rest w) < S (length (upload sc)))
    by (subst w; cbn [file_rest]; lia).
  assert (Hbound : length (sends (calls w)) <= k
                   < length (sends (calls w))
                     + ceil_div (length (file_rest w)) chunk_size).
  { change (length (sends (calls w))) with 0. subst w; cbn [file_rest]. lia. }
  pose proof (stream_loop_frame sc (S (length (upload sc))) w) as Hcount.
  pose proof (stream_loop_connection sc (S (length (upload sc))) w) as Hconn.
  pose proof (stream_loop_raises sc _ w k e Hlen Hsend Hbound) as Hr.
  destruct (stream_loop_raises_sends sc _ w k e Hlen Hsend Hbound)
    as (cs & Hsends & Hn & Hjoin).
  change (length (sends (calls w))) with 0 in Hn, Hjoin.
  change (sends (calls w)) with (@nil (list Byte.byte)) in Hsends.
  rewrite Nat.sub_0_r in Hn, Hjoin. cbn [app] in Hsends.
  destruct (stream_loop sc (S (length (upload sc))) w) as [r w'].
  cbn [fst snd] in *. subst r. exists w'. split; [done|].
  split; [by rewrite Hcount|].
  split; [|by rewrite Hsends].
  unfold connection_is_up. rewrite Hconn.
  - cbn [is_connected]. by rewrite Hsends, Hn.
  - subst w. cbn [dg_connection]. by rewrite lost_by_0.
Qed.

(** No [send] raises in a started session: the [try] body returns after its
    own [finish], with the connection down. *)
Lemma try_body_streams_to_the_end (sc : scenario) :
  client_raises sc = None →
  start_outcome sc = StartReturns true →
  failing_send sc = None →
  ∃ b w',
    try_body sc (init_world sc) = (Returned b, w')
    ∧ finish_count (calls w') = 1
    ∧ connection_is_up w' = false.
Proof.
  intros Hclient Hstart Hnone. rewrite try_body_started by done. cbv zeta.
  set (w := World _ _ _ _).
  pose proof (stream_loop_frame sc (S (length (upload sc))) w) as Hcount.
  destruct (stream_loop_ok sc (S (length (upload sc))) w)
    as (cs & conn & Hrun & _).
  { subst w; cbn [file_rest]; lia. }
  { intros k Hk. apply failing_send_None; [done|].
    change (length (sends (calls w))) with 0 in Hk. subst w; cbn [file_rest] in Hk. lia. }
  rewrite Hrun in *. cbn [snd calls] in Hcount.
  eexists _, _. split; [done|]. split; [|done].
  cbn [calls]. by rewrite finish_count_snoc, Hcount.
Qed.

(** Once the session is started the [try] body ends, and it leaves exactly
    one [finish] made or to be made by the guards, unless a [send] raised
    with the connection lost. *)
Lemma try_body_after_start (sc : scenario) :
  client_raises sc = None →
  start_outcome sc = StartReturns true →
  ∃ r w',
    try_body sc (init_world sc) = (r, w')
    ∧ r ≠ OutOfFuel
    ∧ finish_count (calls w') + (if connection_is_up w' then 1 else 0)
      = (if match failing_send sc with
            | None => true
            | Some (k, _) => negb (lost_by sc (S k))
            end then 1 else 0).
Proof.
  intros Hclient Hstart. destruct (failing_send sc) as [[k e]|] eqn:Hfail.
  - apply failing_send_Some in Hfail as [Hsend Hk].
    destruct (try_body_send_raises sc k e) as (w' & Hbody & Hcount & Hup & _); try done.
    exists (Raised e), w'. split; [done|]. split; [done|].
    by rewrite Hcount, Hup.
  - destruct (try_body_streams_to_the_end sc) as (b & w' & Hbody & Hcount & Hup);
      try done.
    exists (Returned b), w'. split; [done|]. split; [done|].
    by rewrite Hcount, Hup.
Qed.

(** The handler always ends: the fuel of the loop never runs out. *)
Lemma transcribe_audio_terminates (sc : scenario) : fst (handle sc) ≠ OutOfFuel.
Proof.
  unfold handle, transcribe_audio.
  destruct (negb _ || _); [done|].
  assert (∃ r w', try_body sc (init_world sc) = (r, w') ∧ r ≠ OutOfFuel)
    as (r & w' & Hbody & Hr).
  { destruct (client_raises sc) as [e|] eqn:Hclient.
    { eexists _, _. by rewrite (try_body_client_raises _ e). }
    destruct (start_outcome sc) as [[|]|e] eqn:Hstart.
    - destruct (try_body_after_start sc) as (r & w' & ? & ? & _); eauto.
    - eexists _, _. by rewrite try_body_start_refused.
    - eexists _, _. by rewrite (try_body_start_raises _ e). }
  destruct (exits sc _ _ _ _ Hbody Hr) as (_ & _ & ->).
  by destruct r as [b|[]|].
Qed.

(** ** Closing the connection *)





(** When the connection is lost during the [send] that raises, a started
    session ends without any [finish]. *)
Lemma finish_not_called_when_connection_is_lost :
  session_started request_connection_lost = true
  ∧ fst (handle request_connection_lost)
    = Raised (HTTPException 500 "An unexpected server error occurred: socket closed")
  ∧ finish_count (calls (snd (handle request_connection_lost))) = 0.
Proof. repeat split; vm_compute; reflexivity. Qed.

(** ** A refused start *)

(** C7, the counterexample.  An error event with the empty message is
    captured during [start], which then answers false: the detail is the
    generic text, not the captured message. *)
Lemma C7_empty_captured_message_gives_generic_detail :
  deepgram_error_message (nonlocals (snd (handle request_start_refused_empty_message)))
  = Some ""
  ∧ fst (handle request_start_refused_empty_message)
    = Raised (HTTPException 500 "Failed to connect to Deepgram (initiation phase).")
  ∧ fst (handle request_start_refused_empty_message) ≠ Raised (HTTPException 500 "").
Proof.
  split; [vm_compute; reflexivity|].
  split; [vm_compute; reflexivity|].
  vm_compute. congruence.
Qed.

(** C7, as the code has it.  When [start] answers false the handler raises
    [HTTPException] with status 500; the detail is the message of the last
    error event captured during [start] when there is one and it is not
    empty, and "Failed to connect to Deepgram (initiation phase)."
    otherwise; nothing is sent. *)
Theorem C7_start_refused (sc : scenario) :
  configured sc →
  client_raises sc = None →
  start_outcome sc = StartReturns false →
  fst (handle sc)
  = Raised (HTTPException 500
              match last (error_messages (start_events sc)) with
              | Some (String c m) => String c m
              | _ => "Failed to connect to Deepgram (initiation phase)."
              end)
  ∧ sends (calls (snd (handle sc))) = []
  ∧ finish_count (calls (snd (handle sc))) = 0.
Proof.
  intros Hc Hclient Hstart. rewrite handle_configured by done.
  pose proof (try_body_start_refused sc Hclient Hstart) as Hbody.
  unfold try_finally, try_except. rewrite Hbody. run_step.
  split; [|done].
  rewrite deliver_error_message. cbn [deepgram_error_message].
  by destruct (last (error_messages (start_events sc))) as [[|c m]|].
Qed.

Lemma C7_start_refused_witness :
  fst (handle request_start_refused) = Raised (HTTPException 500 "bad gateway")
  ∧ sends (calls (snd (handle request_start_refused))) = []
  ∧ finish_count (calls (snd (handle request_start_refused))) = 0.
Proof.
  apply (C7_start_refused request_start_refused).
  - split; [reflexivity | vm_compute; congruence].
  - reflexivity.
  - reflexivity.
Defined.

(** ** Exceptions of the SDK *)

(** [str_in] is the substring test. *)
Lemma prefix_spec (p s : string) :
  String.prefix p s = true ↔ ∃ post, s = p +:+ post.
Proof.
  revert s. induction p as [|a p IH]; intros s.
  - split; [intros _; by exists s | by destruct s].
  - destruct s as [|b s]; cbn [String.prefix].
    + split; [done | by intros [post Hpost]].
    + destruct (ascii_dec a b) as [->|Hne].
      * rewrite IH. split; intros [post Hpost]; exists post.
        -- by rewrite Hpost.
        -- by injection Hpost.
      * split; [done|]. intros [post Hpost]. injection Hpost as Hab _. by symmetry in Hab.
Qed.

Lemma str_in_spec (needle hay : string) :
  str_in needle hay = true ↔ ∃ pre post, hay = pre +:+ needle +:+ post.
Proof.
  induction hay as [|c hay IH]; cbn [str_in].
  - rewrite orb_false_r, prefix_spec. split.
    + intros [post Hpost]. by exists "", post.
    + intros ([|? pre] & post & Hpost); [by exists post | done].
  - rewrite orb_true_iff, prefix_spec, IH. split.
    + intros [[post Hpost] | (pre & post & Hpost)].
      * by exists "", post.
      * exists (String c pre), post. by rewrite Hpost.
    + intros ([|c' pre] & post & Hpost).
      * left. by exists post.
      * right. exists pre, post. by injection Hpost.
Qed.

(** C8.  When an SDK call raises [DeepgramError], during session setup
    (lines 37-44 or [start]) or during streaming (a [send]), the handler
    catches it and calls [finish] when the connection is up, which it can
    only be when the exception comes from a [send], and not otherwise; it
    then raises
    [HTTPException] with status 500, whose detail is "Deepgram API error: "
    followed by the text of the exception, or "Deepgram authentication
    error. Check API Key." when the lowercased text contains "auth". *)
Theorem C8_sdk_exception (sc : scenario) (msg : string) (up : bool) :
  configured sc →
  sdk_raises sc (DeepgramError msg) up →
  fst (handle sc)
  = Raised (HTTPException 500
              (if str_in "auth" (lower msg)
               then "Deepgram authentication error. Check API Key."
               else "Deepgram API error: " +:+ msg))
  ∧ finish_count (calls (snd (handle sc))) = (if up then 1 else 0)
  ∧ connection_is_up (snd (handle sc)) = false.
Proof.
  intros Hc Hraise. rewrite handle_configured by done.
  assert (∃ w', try_body sc (init_world sc) = (Raised (DeepgramError msg), w')
                ∧ finish_count (calls w') = 0 ∧ connection_is_up w' = up)
    as (w' & Hbody & Hcount & Hup).
  { destruct Hraise as [Hclient | Hclient Hstart | k up Hclient Hstart Hsend Hk ->].
    - eexists. by rewrite (try_body_client_raises _ _ Hclient).
    - eexists. by rewrite (try_body_start_raises _ _ Hclient Hstart).
    - destruct (try_body_send_raises sc k _ Hclient Hstart Hsend Hk)
        as (w' & Hbody & Hcount & Hup & _).
      by exists w'. }
  destruct (exits sc _ _ _ _ Hbody) as (Hdown & Hfinal & ->); [done|].
  rewrite Hfinal, Hcount, Hup. by destruct up.
Qed.

Lemma C8_sdk_exception_witness :
  fst (handle request_send_raises)
  = Raised (HTTPException 500 "Deepgram authentication error. Check API Key.")
  ∧ finish_count (calls (snd (handle request_send_raises))) = 1
  ∧ connection_is_up (snd (handle request_send_raises)) = false.
Proof.
  apply (C8_sdk_exception request_send_raises "Invalid AUTH token" true).
  - split; [reflexivity | vm_compute; congruence].
  - apply (raises_in_send _ _ 1);
      [reflexivity | reflexivity | reflexivity | vm_compute; lia | reflexivity].
Defined.

(** * Further properties of the handler *)

(** ** The paths of the handler, in full *)

(** What the [except] clauses and the [finally] block leave of the world:
    the file as it was, one more [finish] when the connection was up. *)
Lemma exits_frame (sc : scenario) (attempt : M body) (w w' : world) (r : outcome body) :
  attempt w = (r, w') →
  r ≠ OutOfFuel →
  let final :=
    try_finally (try_except attempt (except_clauses sc)) (finish_if_connected sc) w in
  file_rest (snd final) = file_rest w'
  ∧ calls (snd final)
    = calls w' ++ (if connection_is_up w' then [CallFinish] else []).
Proof.
  intros Hbody Hfuel. cbv zeta. unfold try_finally, try_except. rewrite Hbody.
  destruct w' as [v conn rest cs].
  destruct r as [b|[msg|code detail|msg]|];
    destruct conn as [[[|]]|]; unfold except_clauses; run_step;
    rewrite ?app_nil_r; done.
Qed.

(** The loop sends chunks that make up a prefix of what is left of the
    file, and ends by itself or by the exception of a [send]. *)
Lemma stream_loop_cases (sc : scenario) (fuel : nat) (w : world) :
  length (file_rest w) < fuel →
  ∃ cs : list (list Byte.byte),
    calls (snd (stream_loop sc fuel w)) = calls w ++ (CallSend <$> cs)
    ∧ mjoin cs `prefix_of` file_rest w
    ∧ (fst (stream_loop sc fuel w) = Returned tt
         ∧ file_rest (snd (stream_loop sc fuel w)) = []
       ∨ ∃ k e, fst (stream_loop sc fuel w) = Raised e
                ∧ send_raises sc = Some (k, e)).
Proof.
  revert w. induction fuel as [|fuel IH]; intros w Hlen; [lia|].
  rewrite stream_loop_S. cbv zeta.
  destruct (take chunk_size (file_rest w)) as [|d ds] eqn:Et.
  - exists []. cbn [fst snd calls file_rest set_file_rest fmap list_fmap].
    rewrite app_nil_r. split; [done|]. split; [apply prefix_nil|]. left.
    apply take_chunk_nil in Et. by rewrite Et, drop_nil.
  - pose proof (drop_chunk_shorter _ _ _ Et) as Hdrop.
    assert (Hpre : (d :: ds) `prefix_of` file_rest w).
    { rewrite <- Et. apply prefix_take. }
    destruct (sent_frame sc (d :: ds) w) as (_ & Hfile & Hcalls).
    destruct (send_exception sc (length (sends (calls w)))) as [e|] eqn:Hex.
    + exists [d :: ds]. cbn [fst snd]. rewrite Hcalls.
      split; [done|].
      split; [change (mjoin [d :: ds]) with ((d :: ds) ++ []); by rewrite app_nil_r|].
      right. unfold send_exception in Hex.
      destruct (send_raises sc) as [[k e']|]; [|done].
      destruct (_ =? _)%nat; [|done]. injection Hex as ->. by exists k, e.
    + set (w1 := deliver_to _ _).
      assert (Hf1 : file_rest w1 = drop chunk_size (file_rest w)).
      { subst w1. by cbn [file_rest deliver_to set_nonlocals]. }
      assert (Hc1 : calls w1 = calls w ++ [CallSend (d :: ds)]).
      { subst w1. by cbn [calls deliver_to set_nonlocals]. }
      destruct (IH w1) as (cs & Hcalls1 & Hprefix & Hend).
      { rewrite Hf1. lia. }
      exists ((d :: ds) :: cs). rewrite Hcalls1, Hc1. rewrite Hf1 in Hprefix.
      split; [by rewrite <- app_assoc|]. split; [|done].
      change (mjoin ((d :: ds) :: cs)) with ((d :: ds) ++ mjoin cs).
      rewrite <- Et. rewrite <- (take_drop chunk_size (file_rest w)) at 2.
      by apply prefix_app.
Qed.

(** The four ways the [try] body ends, with the world each leaves. *)
Lemma try_body_paths (sc : scenario) :
  let key := DEEPGRAM_API_KEY sc in
  ∃ r w',
    try_body sc (init_world sc) = (r, w') ∧ r ≠ OutOfFuel
    ∧ ((∃ e, client_raises sc = Some e ∧ r = Raised e
             ∧ connection_is_up w' = false ∧ file_rest w' = upload sc
             ∧ calls w' = [CallClient key])
       ∨ (∃ e, client_raises sc = None ∧ start_outcome sc = StartRaises e
               ∧ r = Raised e
               ∧ connection_is_up w' = false ∧ file_rest w' = upload sc
               ∧ calls w' = [CallClient key; CallLive; CallStart])
       ∨ (∃ detail, client_raises sc = None ∧ start_outcome sc = StartReturns false
                    ∧ r = Raised (HTTPException 500 detail)
                    ∧ connection_is_up w' = false ∧ file_rest w' = upload sc
                    ∧ calls w' = [CallClient key; CallLive; CallStart])
       ∨ (∃ cs, client_raises sc = None ∧ start_outcome sc = StartReturns true
                ∧ mjoin cs `prefix_of` upload sc
                ∧ ((∃ b, r = Returned b ∧ connection_is_up w' = false
                         ∧ file_rest w' = []
                         ∧ calls w' = [CallClient key; CallLive; CallStart]
                                      ++ (CallSend <$> cs) ++ [CallFinish])
                   ∨ (∃ k e, send_raises sc = Some (k, e) ∧ r = Raised e
                             ∧ calls w' = [CallClient key; CallLive; CallStart]
                                          ++ (CallSend <$> cs))))).
Proof.
  cbv zeta. destruct (client_raises sc) as [e|] eqn:Hclient.
  { eexists _, _. rewrite (try_body_client_raises _ e) by done.
    split; [done|]. split; [done|]. left. by exists e. }
  destruct (start_outcome sc) as [[|]|e] eqn:Hstart.
  - rewrite try_body_started by done. cbv zeta.
    set (w := World _ _ _ _).
    destruct (stream_loop_cases sc (S (length (upload sc))) w)
      as (cs & Hcalls & Hprefix & Hend); [subst w; cbn [file_rest]; lia|].
    destruct (stream_loop sc (S (length (upload sc))) w) as [r w'].
    cbn [fst snd] in *.
    destruct Hend as [[-> Hrest] | (k & e & -> & Hsend)].
    + eexists _, _. split; [done|]. split; [done|]. do 3 right.
      exists cs. do 3 (split; [done|]). left. eexists.
      split; [done|]. cbn [file_rest calls]. rewrite Hcalls, Hrest.
      subst w. cbn [calls]. by rewrite <- !app_assoc.
    + eexists _, _. split; [done|]. split; [done|]. do 3 right.
      exists cs. do 3 (split; [done|]). right. exists k, e.
      by rewrite Hcalls.
  - eexists _, _. rewrite try_body_start_refused by done.
    split; [done|]. split; [done|]. right; right; left. eexists. done.
  - eexists _, _. rewrite (try_body_start_raises _ e) by done.
    split; [done|]. split; [done|]. right; left. by exists e.
Qed.

(** ** When the handler returns a body *)

Lemma handle_returned_inv (sc : scenario) (b : body) :
  fst (handle sc) = Returned b →
  configured sc ∧ ∃ w', try_body sc (init_world sc) = (Returned b, w').
Proof.
  unfold handle, transcribe_audio.
  destruct (negb _ || _) eqn:Hcheck; [done|].
  assert (Hc : configured sc).
  { apply orb_false_elim in Hcheck as [Ht Hne].
    apply negb_false_iff in Ht. by apply String.eqb_neq in Hne. }
  destruct (try_body_paths sc) as (r & w' & Hbody & Hr & _).
  destruct (exits sc _ _ _ _ Hbody Hr) as (_ & _ & ->).
  intros Hret. split; [done|]. exists w'.
  destruct r as [b'|[]|]; congruence.
Qed.

Lemma handle_returned_reaches (sc : scenario) (b : body) :
  fst (handle sc) = Returned b → reaches_finalization sc.
Proof.
  intros Hret. destruct (handle_returned_inv sc b Hret) as (Hc & w' & Hbody).
  destruct (client_raises sc) as [e|] eqn:Hclient.
  { by rewrite (try_body_client_raises _ e) in Hbody. }
  destruct (start_outcome sc) as [[|]|e] eqn:Hstart.
  - split; [done|]. split; [done|]. split; [done|].
    intros k Hk. destruct (send_exception sc k) as [e|] eqn:Hex; [exfalso|done].
    assert (Hsend : send_raises sc = Some (k, e)).
    { unfold send_exception in Hex. destruct (send_raises sc) as [[k' e']|]; [|done].
      destruct (Nat.eqb_spec k k') as [->|]; [|done]. by injection Hex as ->. }
    rewrite try_body_started in Hbody by done. cbv zeta in Hbody.
    pose proof (stream_loop_raises sc (S (length (upload sc)))
                  (World (deliver (start_events sc) (Closure "" None))
                         (Some (LiveClient true)) (upload sc)
                         [CallClient (DEEPGRAM_API_KEY sc); CallLive; CallStart])
                  k e) as Hr.
    destruct (stream_loop sc _ _) as [r w1]. cbn [fst file_rest calls] in Hr.
    rewrite Hr in Hbody; [done | lia | done |].
    change (length (sends _)) with 0. lia.
  - by rewrite try_body_start_refused in Hbody.
  - by rewrite (try_body_start_raises _ e) in Hbody.
Qed.

Lemma concat_truthy (f : string) (fs : list string) :
  truthy f = true → truthy (String.concat " " (f :: fs)) = true.
Proof.
  intros Hf. destruct fs; [done|]. cbn [String.concat]. by apply truthy_app_l.
Qed.

(** X1.  A run that reaches line 131 without any error event and with at
    least one non-empty fragment returns the body whose only key is the
    transcription: the fragments in arrival order joined by single spaces
    (lines 138-139). *)
Theorem transcription_returned_on_success (sc : scenario) :
  reaches_finalization sc →
  error_messages (delivered sc) = [] →
  fragments (delivered sc) ≠ [] →
  fst (handle sc)
  = Returned (Body (String.concat " " (fragments (delivered sc))) None).
Proof.
  intros Hreach Herr Hfr.
  destruct (handle_completes sc Hreach) as (cs & -> & _).
  cbn [fst]. unfold evaluate, at_finalization.
  rewrite deliver_error_message, Herr. cbn [last deepgram_error_message].
  rewrite deliver_from_empty by done.
  pose proof (fragments_truthy (delivered sc)) as Hall.
  destruct (fragments (delivered sc)) as [|f fs]; [done|].
  inversion Hall; subst. by rewrite concat_truthy.
Qed.

Lemma transcription_returned_on_success_witness :
  fst (handle request_hello_world) = Returned (Body "hello world" None).
Proof.
  apply (transcription_returned_on_success request_hello_world).
  - reaches_by_evaluation.
  - vm_compute; reflexivity.
  - vm_compute; congruence.
Defined.

(** X2.  When the last error event delivered before line 131 has a text
    that is not empty, the handler returns the body with an empty
    transcription and the error "Deepgram error: " followed by that text,
    whatever fragments arrived before or after it (lines 131-133). *)
Theorem last_nonempty_error_is_reported (sc : scenario) (m : string) :
  reaches_finalization sc →
  last (error_messages (delivered sc)) = Some m →
  m ≠ "" →
  fst (handle sc) = Returned (Body "" (Some ("Deepgram error: " +:+ m))).
Proof. apply provider_error_reported. Qed.

Lemma last_nonempty_error_is_reported_witness :
  fragments (delivered request_error_between_fragments) = ["hello"; "world"]
  ∧ fst (handle request_error_between_fragments)
    = Returned (Body "" (Some "Deepgram error: rate limited")).
Proof.
  split; [vm_compute; reflexivity|].
  apply (last_nonempty_error_is_reported request_error_between_fragments "rate limited").
  - reaches_by_evaluation.
  - vm_compute; reflexivity.
  - congruence.
Defined.

(** X3.  The handler returns a body exactly in the runs that reach line
    131: the credential is accepted, no SDK call made raises and [start]
    answers true.  In every other run it raises. *)
Theorem body_returned_iff_finalization_reached (sc : scenario) :
  (∃ b, fst (handle sc) = Returned b) ↔ reaches_finalization sc.
Proof.
  split.
  - intros [b Hret]. by apply (handle_returned_reaches sc b).
  - intros Hreach. destruct (handle_completes sc Hreach) as (cs & -> & _).
    by eexists.
Qed.

Lemma evaluate_shape (v : closure) :
  match error_field (evaluate v) with
  | Some _ => transcription (evaluate v) = ""
  | None => transcription (evaluate v) ≠ ""
  end.
Proof.
  destruct v as [t m]. unfold evaluate. cbn [transcription_result deepgram_error_message].
  destruct m as [[|c m]|], t as [|c' t]; done.
Qed.

(** X4.  A returned body has an ["error"] key exactly when its
    transcription is empty: a transcript is never returned together with an
    error, and an empty transcription is never returned without one (lines
    131-139). *)
Theorem body_has_error_iff_transcription_empty (sc : scenario) (b : body) :
  fst (handle sc) = Returned b →
  match error_field b with
  | Some _ => transcription b = ""
  | None => transcription b ≠ ""
  end.
Proof.
  intros Hret. pose proof (handle_returned_reaches sc b Hret) as Hreach.
  destruct (handle_completes sc Hreach) as (cs & Hrun & _).
  rewrite Hrun in Hret. injection Hret as <-. apply evaluate_shape.
Qed.

Lemma body_has_error_iff_transcription_empty_witness :
  transcription (Body "hello world" None) ≠ "".
Proof.
  apply (body_has_error_iff_transcription_empty request_hello_world
           (Body "hello world" None)).
  vm_compute; reflexivity.
Defined.

(** ** Exceptions *)

Lemma try_body_sdk_raises (sc : scenario) (e : exn) (up : bool) :
  sdk_raises sc e up →
  ∃ w', try_body sc (init_world sc) = (Raised e, w')
        ∧ finish_count (calls w') = 0 ∧ connection_is_up w' = up.
Proof.
  intros [Hclient | Hclient Hstart | k up' Hclient Hstart Hsend Hk ->].
  - eexists. by rewrite (try_body_client_raises _ _ Hclient).
  - eexists. by rewrite (try_body_start_raises _ _ Hclient Hstart).
  - destruct (try_body_send_raises sc k _ Hclient Hstart Hsend Hk)
      as (w' & Hbody & Hcount & Hup & _).
    by exists w'.
Qed.

(** X5.  When an SDK call raises an exception that is neither the SDK's
    [DeepgramError] nor an [HTTPException], during session setup or during
    streaming, the handler calls [finish] when the connection is up, and not
    otherwise, and raises [HTTPException] with status 500 and the detail "An
    unexpected server error occurred: " followed by the text of the
    exception (lines 154-158). *)
Theorem unexpected_exception_becomes_server_error
    (sc : scenario) (msg : string) (up : bool) :
  configured sc →
  sdk_raises sc (Exception msg) up →
  fst (handle sc)
  = Raised (HTTPException 500 ("An unexpected server error occurred: " +:+ msg))
  ∧ finish_count (calls (snd (handle sc))) = (if up then 1 else 0)
  ∧ connection_is_up (snd (handle sc)) = false.
Proof.
  intros Hc Hraise. rewrite handle_configured by done.
  destruct (try_body_sdk_raises sc _ _ Hraise) as (w' & Hbody & Hcount & Hup).
  destruct (exits sc _ _ _ _ Hbody) as (Hdown & Hfinal & ->); [done|].
  rewrite Hfinal, Hcount, Hup. by destruct up.
Qed.

Lemma unexpected_exception_becomes_server_error_witness :
  fst (handle request_start_raises)
  = Raised (HTTPException 500 "An unexpected server error occurred: connection reset")
  ∧ finish_count (calls (snd (handle request_start_raises))) = 0
  ∧ connection_is_up (snd (handle request_start_raises)) = false.
Proof.
  apply (unexpected_exception_becomes_server_error
           request_start_raises "connection reset" false).
  - split; [reflexivity | vm_compute; congruence].
  - apply raises_in_start; reflexivity.
Defined.

(** X7.  The loop of lines 116-120 ends for every upload, and so does the
    handler: it returns a body or raises. *)
Theorem handler_always_ends (sc : scenario) :
  (∃ b, fst (handle sc) = Returned b) ∨ (∃ e, fst (handle sc) = Raised e).
Proof.
  pose proof (transcribe_audio_terminates sc) as Hfuel.
  destruct (fst (handle sc)) as [b|e|]; [left | right | done]; by eexists.
Qed.

(** ** The authentication check of line 147 *)

Lemma lower_app (a b : string) : lower (a +:+ b) = lower a +:+ lower b.
Proof.
  induction a as [|c a IH]; [done|].
  change (String (ascii_lower c) (lower (a +:+ b))
          = String (ascii_lower c) (lower a +:+ lower b)).
  by rewrite IH.
Qed.

Lemma lower_app_inv (s a b : string) :
  lower s = a +:+ b → ∃ s1 s2, s = s1 +:+ s2 ∧ lower s1 = a ∧ lower s2 = b.
Proof.
  revert s. induction a as [|c a IH]; intros s Hs.
  - by exists "", s.
  - destruct s as [|c0 s]; [done|].
    change (String (ascii_lower c0) (lower s) = String c (a +:+ b)) in Hs.
    injection Hs as Hc Hs. destruct (IH s Hs) as (s1 & s2 & -> & H1 & H2).
    exists (String c0 s1), s2. split; [done|]. split; [|done].
    cbn [lower]. by rewrite Hc, H1.
Qed.

Lemma auth_check_spec (msg : string) :
  str_in "auth" (lower msg) = true
  ↔ ∃ pre w post, msg = pre +:+ w +:+ post ∧ lower w = "auth".
Proof.
  rewrite str_in_spec. split.
  - intros (p & q & Hl).
    destruct (lower_app_inv _ _ _ Hl) as (pre & rest & -> & _ & Hrest).
    destruct (lower_app_inv _ _ _ Hrest) as (w & post & -> & Hw & _).
    by exists pre, w, post.
  - intros (pre & w & post & -> & Hw).
    exists (lower pre), (lower post). by rewrite !lower_app, Hw.
Qed.

(** X8.  For a [DeepgramError] raised by an SDK call, the detail of the
    server error is "Deepgram authentication error. Check API Key." exactly
    when the text of the exception contains the word "auth" in some mix of
    upper and lower case; the text itself is then not part of the detail. *)
Theorem authentication_detail_iff_auth_in_any_case
    (sc : scenario) (msg : string) (up : bool) :
  configured sc →
  sdk_raises sc (DeepgramError msg) up →
  fst (handle sc)
  = Raised (HTTPException 500 "Deepgram authentication error. Check API Key.")
  ↔ ∃ pre w post, msg = pre +:+ w +:+ post ∧ lower w = "auth".
Proof.
  intros Hc Hraise. rewrite <- auth_check_spec.
  rewrite handle_configured by done.
  destruct (try_body_sdk_raises sc _ _ Hraise) as (w' & Hbody & _).
  destruct (exits sc _ _ _ _ Hbody) as (_ & _ & ->); [done|].
  destruct (str_in "auth" (lower msg)); [done|].
  split; [|done]. intros Heq. exfalso.
  injection Heq as Heq. vm_compute in Heq. congruence.
Qed.

Lemma authentication_detail_iff_auth_in_any_case_witness :
  fst (handle request_send_raises)
  = Raised (HTTPException 500 "Deepgram authentication error. Check API Key.").
Proof.
  apply (authentication_detail_iff_auth_in_any_case
           request_send_raises "Invalid AUTH token" true).
  - split; [reflexivity | vm_compute; congruence].
  - apply (raises_in_send _ _ 1);
      [reflexivity | reflexivity | reflexivity | vm_compute; lia | reflexivity].
  - exists "Invalid ", "AUTH", " token". split; reflexivity.
Defined.

(** ** The calls made on the SDK *)







Lemma connection_after_send_same (sc sc' : scenario) (k : nat) (w w' : world) :
  connection_lost_at sc = connection_lost_at sc' →
  calls w = calls w' →
  file_rest w = file_rest w' →
  dg_connection w = dg_connection w' →
  calls (connection_after_send sc k w) = calls (connection_after_send sc' k w')
  ∧ file_rest (connection_after_send sc k w)
    = file_rest (connection_after_send sc' k w')
  ∧ dg_connection (connection_after_send sc k w)
    = dg_connection (connection_after_send sc' k w').
Proof.
  intros Hlost Hcalls Hfile Hconn. unfold connection_after_send. rewrite <- Hlost.
  destruct (connection_lost_at sc) as [j|]; [|done].
  by destruct (j =? k)%nat.
Qed.

Lemma stream_loop_same_script (sc sc' : scenario) (fuel : nat) (w w' : world) :
  send_raises sc = send_raises sc' →
  connection_lost_at sc = connection_lost_at sc' →
  calls w = calls w' →
  file_rest w = file_rest w' →
  dg_connection w = dg_connection w' →
  fst (stream_loop sc fuel w) = fst (stream_loop sc' fuel w')
  ∧ calls (snd (stream_loop sc fuel w)) = calls (snd (stream_loop sc' fuel w'))
  ∧ file_rest (snd (stream_loop sc fuel w)) = file_rest (snd (stream_loop sc' fuel w'))
  ∧ dg_connection (snd (stream_loop sc fuel w))
    = dg_connection (snd (stream_loop sc' fuel w')).
Proof.
  intros Hsend Hlost. revert w w'.
  induction fuel as [|fuel IH]; intros w w' Hcalls Hfile Hconn; [done|].
  rewrite !stream_loop_S. cbv zeta. rewrite <- Hfile, <- Hcalls.
  destruct (take chunk_size (file_rest w)) as [|d ds].
  { cbn [fst snd calls file_rest dg_connection set_file_rest]. by rewrite Hfile. }
  assert (Hex : send_exception sc' (length (sends (calls w)))
                = send_exception sc (length (sends (calls w)))).
  { unfold send_exception. by rewrite Hsend. }
  rewrite Hex.
  destruct (connection_after_send_same sc sc' (length (sends (calls w)))
              (log_call (CallSend (d :: ds))
                 (set_file_rest (drop chunk_size (file_rest w)) w))
              (log_call (CallSend (d :: ds))
                 (set_file_rest (drop chunk_size (file_rest w)) w')) Hlost)
    as (Hc1 & Hf1 & Hd1);
    [cbn [calls log_call set_file_rest]; by rewrite Hcalls | done | done |].
  destruct (send_exception sc (length (sends (calls w)))) as [e|].
  - by cbn [fst snd].
  - by apply IH; cbn [calls file_rest dg_connection deliver_to set_nonlocals].
Qed.

(** X11.  The calls the handler makes on the SDK, and what it reads of the
    upload, do not depend on the events the SDK delivers: two requests with
    the same key, upload and SDK results, but any events, give the same
    calls.  In particular an error event does not stop the streaming. *)
Theorem calls_do_not_depend_on_events (sc sc' : scenario) :
  same_script sc sc' →
  calls (snd (handle sc)) = calls (snd (handle sc'))
  ∧ file_rest (snd (handle sc)) = file_rest (snd (handle sc')).
Proof.
  intros (Hkey & Hup & Hclient & Hstart & Hsend & Hlost).
  assert (Hk : DEEPGRAM_API_KEY sc' = DEEPGRAM_API_KEY sc).
  { unfold DEEPGRAM_API_KEY. by rewrite Hkey. }
  unfold handle, transcribe_audio. rewrite Hk.
  destruct (negb _ || _) eqn:Hcheck.
  { cbn. by rewrite Hup. }
  destruct (try_body_paths sc) as (r & w1 & Hbody & Hr & _).
  destruct (try_body_paths sc') as (r' & w1' & Hbody' & Hr' & _).
  destruct (exits_frame sc _ _ _ _ Hbody Hr) as (-> & ->).
  destruct (exits_frame sc' _ _ _ _ Hbody' Hr') as (-> & ->).
  assert (calls w1 = calls w1' ∧ file_rest w1 = file_rest w1'
          ∧ connection_is_up w1 = connection_is_up w1') as (-> & -> & ->); [|done].
  destruct (client_raises sc) as [e|] eqn:Hc.
  { rewrite (try_body_client_raises sc e) in Hbody by done.
    rewrite (try_body_client_raises sc' e) in Hbody' by congruence.
    injection Hbody as _ <-. injection Hbody' as _ <-. by rewrite Hk, Hup. }
  destruct (start_outcome sc) as [[|]|e] eqn:Hs.
  - rewrite try_body_started in Hbody by done.
    rewrite try_body_started in Hbody' by congruence.
    cbv zeta in Hbody, Hbody'. rewrite Hk, <- Hup in Hbody'.
    pose proof (stream_loop_same_script sc sc' (S (length (upload sc)))
      (World (deliver (start_events sc) (Closure "" None))
             (Some (LiveClient true)) (upload sc)
             [CallClient (DEEPGRAM_API_KEY sc); CallLive; CallStart])
      (World (deliver (start_events sc') (Closure "" None))
             (Some (LiveClient true)) (upload sc)
             [CallClient (DEEPGRAM_API_KEY sc); CallLive; CallStart])
      Hsend Hlost eq_refl eq_refl eq_refl) as (Hfst & Hcalls & Hfile & Hconn).
    destruct (stream_loop sc _ _) as [o w2], (stream_loop sc' _ _) as [o' w2'].
    cbn [fst snd] in *. subst o'.
    destruct o as [[]|e|]; injection Hbody as _ <-; injection Hbody' as _ <-;
      unfold connection_is_up; cbn [calls file_rest dg_connection];
      by rewrite ?Hcalls, ?Hfile, ?Hconn.
  - rewrite try_body_start_refused in Hbody by done.
    rewrite try_body_start_refused in Hbody' by congruence.
    injection Hbody as _ <-. injection Hbody' as _ <-. by rewrite Hk, Hup.
  - rewrite (try_body_start_raises sc e) in Hbody by done.
    rewrite (try_body_start_raises sc' e) in Hbody' by congruence.
    injection Hbody as _ <-. injection Hbody' as _ <-. by rewrite Hk, Hup.
Qed.

Lemma calls_do_not_depend_on_events_witness :
  calls (snd (handle request_empty_error_message))
  = calls (snd (handle request_error_without_message)).
Proof.
  apply (calls_do_not_depend_on_events
           request_empty_error_message request_error_without_message).
  repeat split.
Defined.

(** X12.  In every run that passes the credential check the first call on
    the SDK creates the client with the value of the environment variable,
    unchanged (lines 20 and 41). *)
Theorem client_is_created_with_the_environment_key (sc : scenario) (k : string) :
  env_key sc = Some k →
  k ≠ "" →
  k ≠ placeholder_key →
  ∃ rest, calls (snd (handle sc)) = CallClient k :: rest.
Proof.
  intros Hkey Hne Hph.
  assert (Hk : DEEPGRAM_API_KEY sc = k).
  { unfold DEEPGRAM_API_KEY. by rewrite Hkey. }
  assert (Hc : configured sc).
  { unfold configured. rewrite Hk. split; [by destruct k | done]. }
  rewrite handle_configured by done.
  destruct (try_body_paths sc) as (r & w' & Hbody & Hr & Hpaths).
  destruct (exits_frame sc _ _ _ _ Hbody Hr) as (_ & ->).
  cbv zeta in Hpaths. rewrite Hk in Hpaths.
  destruct Hpaths as [(e & _ & _ & _ & _ & ->) | [(e & _ & _ & _ & _ & _ & ->)
    | [(d & _ & _ & _ & _ & _ & ->)
    | (cs & _ & _ & _ & [(b & _ & _ & _ & ->) | (k0 & e & _ & _ & ->)])]]];
    by eexists.
Qed.

Lemma client_is_created_with_the_environment_key_witness :
  ∃ rest, calls (snd (handle request_hello_world)) = CallClient some_key :: rest.
Proof.
  apply (client_is_created_with_the_environment_key request_hello_world some_key).
  - reflexivity.
  - vm_compute; congruence.
  - vm_compute; congruence.
Defined.

(** ** What the callbacks keep *)

Lemma app_empty_r (s : string) : s +:+ "" = s.
Proof.
  induction s as [|c s IH]; [done|].
  change (String c (s +:+ "") = String c s). by rewrite IH.
Qed.

(** X13.  The callbacks never lose what they have: any sequence of events
    only extends the accumulated transcript, which stays a prefix of the new
    one, and never resets a captured error to [None]; the variable
    [deepgram_error_message] is [None] after the events only if it was
    before and no error event is among them. *)
Theorem callbacks_only_extend_and_never_clear (evs : list event) (v : closure) :
  (∃ suffix,
     transcription_result (deliver evs v) = transcription_result v +:+ suffix)
  ∧ (deepgram_error_message (deliver evs v) = None →
     deepgram_error_message v = None ∧ error_messages evs = []).
Proof.
  split.
  - revert v. induction evs as [|e evs IH]; intros v.
    + exists "". by rewrite app_empty_r.
    + cbn [deliver foldl]. change (foldl _ ?a evs) with (deliver evs a).
      destruct (IH (on_event e v)) as [suffix ->].
      destruct (fragment e) as [f|] eqn:Ef.
      * rewrite (on_event_fragment _ _ _ Ef). cbn [transcription_result].
        eexists. by rewrite app_assoc_str.
      * rewrite on_event_no_fragment by done. by eexists.
  - rewrite deliver_error_message.
    destruct (last (error_messages evs)) as [m|] eqn:Hlast; [done|].
    intros Hv. split; [done|]. by apply last_None.
Qed.

Lemma callbacks_only_extend_and_never_clear_witness :
  deepgram_error_message (Closure "" None) = None
  ∧ error_messages [Open; transcript_event "hello"; Close] = [].
Proof.
  apply (callbacks_only_extend_and_never_clear
           [Open; transcript_event "hello"; Close] (Closure "" None)).
  reflexivity.
Defined.

Lemma at_finalization_eq (sc : scenario) :
  at_finalization sc
  = Closure (String.concat " " (fragments (delivered sc)))
            (last (error_messages (delivered sc))).
Proof.
  unfold at_finalization.
  pose proof (deliver_from_empty (delivered sc) (Closure "" None) eq_refl) as Ht.
  pose proof (deliver_error_message (delivered sc) (Closure "" None)) as He.
  destruct (deliver (delivered sc) (Closure "" None)) as [t m].
  cbn [transcription_result deepgram_error_message] in *. subst.
  by destruct (last (error_messages (delivered sc))).
Qed.

(** X14.  The body returned depends on the events only through the
    non-empty fragments and the text of the last error event: two runs that
    reach line 131 with the same fragments in the same order and the same
    last error text return the same body, whatever the other events, the
    earlier errors, the upload, and the moments at which the events
    arrive. *)
Theorem body_depends_on_fragments_and_last_error (sc sc' : scenario) :
  reaches_finalization sc →
  reaches_finalization sc' →
  fragments (delivered sc) = fragments (delivered sc') →
  last (error_messages (delivered sc)) = last (error_messages (delivered sc')) →
  fst (handle sc) = fst (handle sc').
Proof.
  intros Hreach Hreach' Hfr Herr.
  destruct (handle_completes sc Hreach) as (cs & -> & _).
  destruct (handle_completes sc' Hreach') as (cs' & -> & _).
  cbn [fst]. by rewrite !at_finalization_eq, Hfr, Herr.
Qed.

Lemma body_depends_on_fragments_and_last_error_witness :
  fst (handle request_hello_world) = fst (handle request_hello_world_noisy).
Proof.
  apply (body_depends_on_fragments_and_last_error
           request_hello_world request_hello_world_noisy).
  - reaches_by_evaluation.
  - reaches_by_evaluation.
  - vm_compute; reflexivity.
  - vm_compute; reflexivity.
Defined.

(** ** Streaming that is cut short *)

(** X15.  When the [send] of index [k] (from 0) raises while the upload
    still has a chunk for it, the streaming stops there: [k + 1] sends have
    been made, the failing one included, they carry the first
    [(k + 1) * 4096] bytes of the upload, and nothing is sent after it. *)
Theorem streaming_stops_at_the_send_that_raises (sc : scenario) (k : nat) (e : exn) :
  configured sc →
  client_raises sc = None →
  start_outcome sc = StartReturns true →
  send_raises sc = Some (k, e) →
  k < (length (upload sc) + 4095) / 4096 →
  let cs := sends (calls (snd (handle sc))) in
  length cs = S k
  ∧ mjoin cs = take (S k * 4096) (upload sc).
Proof.
  intros Hc Hclient Hstart Hsend Hk. cbv zeta.
  rewrite handle_configured by done.
  destruct (try_body_send_raises sc k e Hclient Hstart Hsend)
    as (w' & Hbody & _ & _ & Hn & Hjoin).
  { rewrite chunk_size_eq. exact Hk. }
  destruct (exits_frame sc _ _ _ _ Hbody) as (_ & ->); [done|].
  assert (Hsame : sends (calls w' ++ (if connection_is_up w' then [CallFinish] else []))
                  = sends (calls w')).
  { unfold sends. rewrite omap_app. destruct (connection_is_up w'); apply app_nil_r. }
  rewrite Hsame, <- chunk_size_eq. done.
Qed.

Lemma streaming_stops_at_the_send_that_raises_witness :
  length (sends (calls (snd (handle request_connection_lost)))) = 2
  ∧ mjoin (sends (calls (snd (handle request_connection_lost))))
    = take (2 * 4096) (upload request_connection_lost).
Proof.
  apply (streaming_stops_at_the_send_that_raises
           request_connection_lost 1 (Exception "socket closed")).
  - split; [reflexivity | vm_compute; congruence].
  - reflexivity.
  - reflexivity.
  - reflexivity.
  - vm_compute. lia.
Defined.
